(** * AutomationsExtension (zigbee2mqtt-extensions), shallow embedding

    This development embeds the compiled extension
    [dist/automations-extension-2.yaml] (the variant with conditions,
    [for] delays and a timer registry) and proves or refutes the
    properties stated for it. The module [TsVariant] embeds the older
    source [src/automations-extension.ts] and relates it to the compiled one.

    Modelling conventions.
    - A JavaScript value stored in an update or a state snapshot is a
      string or a number ([Update = Record<string, string | number>]);
      numbers are rationals (NaN and the infinities are not modelled).
    - Objects used as string-keyed records ([update], [from], [to], the
      live state of an entity) are [gmap string Value]; [hasOwnProperty]
      is [is_Some] of a lookup; an absent property reads as [undefined],
      written [None].
    - JavaScript's ToNumber on strings (used by [<], [<=], ... when one
      operand is a number) is left abstract: every definition that
      compares takes [tn : string -> option Q] ([None] is NaN).
    - [crypto.randomUUID()] is modelled by a supply of fresh identifiers:
      a counter threaded through [parseConfig].
    - An exception ([TypeError]) is [None] in an [option] result. *)

From Stdlib Require Import QArith String List Bool Sorted.
From stdpp Require Import base gmap strings list fin_maps.

Open Scope string_scope.

(** ** JavaScript values *)

Inductive Value : Type :=
| VStr (s : string)
| VNum (q : Q).

(** [a === b] on two defined values. *)
Definition js_strict_eq (a b : Value) : bool :=
  match a, b with
  | VStr x, VStr y => String.eqb x y
  | VNum x, VNum y => Qeq_bool x y
  | _, _ => false
  end.

(** [a === b] where either side may be [undefined]. *)
Definition js_strict_eq_opt (a b : option Value) : bool :=
  match a, b with
  | None, None => true
  | Some x, Some y => js_strict_eq x y
  | _, _ => false
  end.

(** ToNumber of a (possibly undefined) value, [None] for NaN. *)
Definition to_number (tn : string -> option Q) (v : option Value) : option Q :=
  match v with
  | None => None
  | Some (VNum q) => Some q
  | Some (VStr s) => tn s
  end.

(** Relational operators with a number on the right: NaN makes all false. *)
Definition js_lt tn (v : option Value) (b : Q) : bool :=
  match to_number tn v with Some a => negb (Qle_bool b a) | None => false end.
Definition js_gt tn (v : option Value) (b : Q) : bool :=
  match to_number tn v with Some a => negb (Qle_bool a b) | None => false end.
Definition js_le tn (v : option Value) (b : Q) : bool :=
  match to_number tn v with Some a => Qle_bool a b | None => false end.
Definition js_ge tn (v : option Value) (b : Q) : bool :=
  match to_number tn v with Some a => Qle_bool b a | None => false end.

(** A configuration field that is either one item or a list of them. *)
Inductive OneOrMany (A : Type) : Type :=
| One (a : A)
| Many (l : list A).
Arguments One {A} a.
Arguments Many {A} l.

(** [function toArray(item) { return Array.isArray(item) ? item : [item]; }] *)
Definition toArray {A} (x : OneOrMany A) : list A :=
  match x with One a => [a] | Many l => l end.

(** [toArray] applied to a field that may be [undefined]:
    [toArray(undefined)] is [[undefined]]. *)
Definition toArray_field {A} (x : option (OneOrMany A)) : list (option A) :=
  match x with None => [None] | Some y => map Some (toArray y) end.

(** [arr.includes(v)] for a defined [v] (SameValueZero, which agrees with
    [===] in the absence of NaN). *)
Definition includes (l : list (option Value)) (v : Value) : bool :=
  existsb (fun x => match x with Some w => js_strict_eq w v | None => false end) l.

(** JavaScript truthiness of an optional string ([""] is falsy). *)
Definition truthy_str (s : option string) : bool :=
  match s with None => false | Some x => negb (String.eqb x "") end.

(** Property key of an attribute name that may be [undefined]. *)
Definition attr_key (a : option string) : string :=
  match a with None => "undefined" | Some s => s end.

(** [trigger.attribute || dflt] *)
Definition attr_or (a : option string) (dflt : string) : string :=
  if truthy_str a then attr_key a else dflt.

(** ** Configuration *)

(** [enum ConfigPlatform] *)
Definition ACTION : string := "action".
Definition STATE : string := "state".
Definition STATE_L1 : string := "state_l1".
Definition STATE_L2 : string := "state_l2".
Definition NUMERIC_STATE : string := "numeric_state".
Definition platforms : list string := [ACTION; STATE; STATE_L1; STATE_L2; NUMERIC_STATE].

(** [enum ConfigService] *)
Definition TOGGLE : string := "toggle".
Definition TURN_ON : string := "turn_on".
Definition TURN_OFF : string := "turn_off".
Definition CUSTOM : string := "custom".
Definition services : list string := [TOGGLE; TURN_ON; TURN_OFF; CUSTOM].

(** [enum StateOnOff] *)
Definition ON : string := "ON".
Definition OFF : string := "OFF".

(** [platforms.includes(p)] / [services.includes(s)] for a field that
    may be [undefined]. *)
Definition str_includes (l : list string) (s : option string) : bool :=
  match s with None => false | Some x => existsb (String.eqb x) l end.

(** A trigger object of the configuration (the fields the code reads). *)
Record ConfigTrigger : Type := {
  tr_platform : option string;
  tr_entity : option (OneOrMany string);
  tr_action : option (OneOrMany Value);
  tr_state : option (OneOrMany Value);
  tr_state_l1 : option (OneOrMany Value);
  tr_state_l2 : option (OneOrMany Value);
  tr_attribute : option string;
  tr_above : option Q;
  tr_below : option Q;
  tr_for : option Q
}.

Abbreviation Update := (gmap string Value).

(** ** Trigger matcher: [checkTrigger]

    The JavaScript result [true | false | null] is [option bool]. *)
Abbreviation MATCH := (Some true) (only parsing).
Abbreviation NEGATIVE_EDGE := (Some false) (only parsing).
Abbreviation NO_MATCH := (@None bool) (only parsing).

(** The three state-like cases share this code, differing in the default
    attribute and the accepted-values field. *)
Definition check_state_like (attribute : string) (accepted : option (OneOrMany Value))
    (update from to : Update) : option bool :=
  match update !! attribute, from !! attribute, to !! attribute with
  | Some u, Some f, Some t =>
      if js_strict_eq f t then None
      else Some (includes (toArray_field accepted) u)
  | _, _, _ => None
  end.

Definition check_numeric tn (trigger : ConfigTrigger) (update from to : Update) : option bool :=
  let attribute := attr_key (tr_attribute trigger) in
  match update !! attribute, from !! attribute, to !! attribute with
  | Some _, Some f, Some t =>
      if js_strict_eq f t then None
      else
        let below_part :=
          match tr_below trigger with
          | Some b =>
              if js_gt tn (Some t) b then Some false
              else if js_le tn (Some f) b then None
              else Some true
          | None => Some true
          end in
        match tr_above trigger with
        | Some a =>
            if js_lt tn (Some t) a then Some false
            else if js_ge tn (Some f) a then None
            else below_part
        | None => below_part
        end
  | _, _, _ => None
  end.

Definition checkTrigger tn (configTrigger : ConfigTrigger) (update from to : Update) : option bool :=
  match tr_platform configTrigger with
  | Some p =>
      if String.eqb p ACTION then
        match update !! "action" with
        | None => None
        | Some a => Some (includes (toArray_field (tr_action configTrigger)) a)
        end
      else if String.eqb p STATE then
        check_state_like (attr_or (tr_attribute configTrigger) "state")
          (tr_state configTrigger) update from to
      else if String.eqb p STATE_L1 then
        check_state_like (attr_or (tr_attribute configTrigger) "state_l1")
          (tr_state_l1 configTrigger) update from to
      else if String.eqb p STATE_L2 then
        check_state_like (attr_or (tr_attribute configTrigger) "state_l2")
          (tr_state_l2 configTrigger) update from to
      else if String.eqb p NUMERIC_STATE then
        check_numeric tn configTrigger update from to
      else Some false
  | None => Some false
  end.

(** ** Host interfaces *)

(** What [zigbee.resolveEntity] returns: only the [name] is read. *)
Record Entity : Type := { ent_name : string }.

(** The host collaborators read by the extension: entity resolution
    ([this.zigbee.resolveEntity]) and live state ([this.state.get]). *)
Record Host : Type := {
  resolveEntity : option string -> option Entity;
  state_get : Entity -> gmap string Value
}.

(** ** Conditions: [checkCondition] *)

Record ConfigCondition : Type := {
  co_platform : option string;
  co_entity : option string;
  co_attribute : option string;
  co_state : option Value;
  co_above : option Q;
  co_below : option Q
}.

Definition check_state_condition (st : gmap string Value) (attribute : string)
    (c : ConfigCondition) : bool :=
  if negb (js_strict_eq_opt (st !! attribute) (co_state c)) then false else true.

Definition checkCondition tn (host : Host) (condition : ConfigCondition) : bool :=
  match resolveEntity host (co_entity condition) with
  | None => true
  | Some entity =>
      let st := state_get host entity in
      match co_platform condition with
      | Some p =>
          if String.eqb p STATE then
            check_state_condition st (attr_or (co_attribute condition) "state") condition
          else if String.eqb p STATE_L1 then
            check_state_condition st (attr_or (co_attribute condition) "state_l1") condition
          else if String.eqb p STATE_L2 then
            check_state_condition st (attr_or (co_attribute condition) "state_l2") condition
          else if String.eqb p NUMERIC_STATE then
            let currentState := st !! attr_key (co_attribute condition) in
            if match co_above condition with
               | Some a => js_lt tn currentState a | None => false end
            then false
            else if match co_below condition with
                    | Some b => js_gt tn currentState b | None => false end
            then false
            else true
          else true
      | None => true
      end
  end.

(** ** Actions: [runActions] *)

Record ConfigAction : Type := {
  ac_entity : option string;
  ac_service : option string;
  ac_data : option string  (** [action.data], kept as opaque JSON text *)
}.

(** Payload handed to [stringify]: [{state: newState}] or [action.data]. *)
Inductive Payload : Type :=
| PState (newState : option string)
| PData (data : option string).

(** One call [this.mqtt.onMessage(topic, stringify(data))]. *)
Record Message : Type := { msg_topic : string; msg_payload : Payload }.

Definition service_is (a : ConfigAction) (s : string) : bool :=
  match ac_service a with Some x => String.eqb x s | None => false end.

(** The [switch (action.service)] computing [newState]. *)
Definition newState_of (a : ConfigAction) (currentState : option Value) : option string :=
  if service_is a TURN_ON then Some ON
  else if service_is a TURN_OFF then Some OFF
  else if service_is a TOGGLE then
    (if js_strict_eq_opt currentState (Some (VStr ON)) then Some OFF else Some ON)
  else None.

Fixpoint runActions (mqttBaseTopic : string) (host : Host) (actions : list ConfigAction)
    : list Message :=
  match actions with
  | [] => []
  | action :: rest =>
      match resolveEntity host (ac_entity action) with
      | None => runActions mqttBaseTopic host rest
      | Some destination =>
          let currentState := state_get host destination !! "state" in
          let newState := newState_of action currentState in
          let topic := mqttBaseTopic ++ "/" ++ ent_name destination ++ "/set" in
          if service_is action CUSTOM then
            {| msg_topic := topic; msg_payload := PData (ac_data action) |}
              :: runActions mqttBaseTopic host rest
          else if js_strict_eq_opt currentState (option_map VStr newState) then
            runActions mqttBaseTopic host rest
          else
            {| msg_topic := topic; msg_payload := PState newState |}
              :: runActions mqttBaseTopic host rest
      end
  end.

(** [for (const condition of conditions) if (!this.checkCondition(condition)) return;]
    The first component records the conditions that were evaluated, in
    order; the second whether the loop ran to completion. *)
Fixpoint check_conditions tn (host : Host) (conditions : list ConfigCondition)
    : list ConfigCondition * bool :=
  match conditions with
  | [] => ([], true)
  | c :: cs =>
      if checkCondition tn host c then
        let '(evaluated, ok) := check_conditions tn host cs in (c :: evaluated, ok)
      else ([c], false)
  end.

(** [runActionsWithConditions]: the evaluated conditions and the
    messages published. *)
Definition runActionsWithConditions tn (mqttBaseTopic : string) (host : Host)
    (conditions : list ConfigCondition) (actions : list ConfigAction)
    : list ConfigCondition * list Message :=
  let '(evaluated, ok) := check_conditions tn host conditions in
  (evaluated, if ok then runActions mqttBaseTopic host actions else []).

(** ** Rule store: [parseConfig] *)

(** An automation after normalisation: [{id, trigger, action, condition}]. *)
Record Automation : Type := {
  id : nat;
  trigger : ConfigTrigger;
  action : list ConfigAction;
  condition : list ConfigCondition
}.

(** A raw configuration entry. [automation.action] is one item or a list;
    a missing or [null] item is [None] (a missing [action] field reads as
    [One None], since [toArray(undefined)] is [[undefined]]). A missing
    [condition] field is [None]. *)
Record RawAutomation : Type := {
  raw_trigger : option ConfigTrigger;
  raw_action : OneOrMany (option ConfigAction);
  raw_condition : option (OneOrMany (option ConfigCondition))
}.

Abbreviation Automations := (gmap string (list Automation)).

(** Properties every plain object inherits from [Object.prototype]:
    [result[k]] is truthy for them although [result] has no own [k]. *)
Definition object_prototype_keys : list string :=
  ["constructor"; "__defineGetter__"; "__defineSetter__"; "hasOwnProperty";
   "__lookupGetter__"; "__lookupSetter__"; "isPrototypeOf";
   "propertyIsEnumerable"; "toString"; "valueOf"; "__proto__"; "toLocaleString"].

Definition is_prototype_key (k : string) : bool :=
  existsb (String.eqb k) object_prototype_keys.

(** [!automation.trigger.entity] *)
Definition entity_truthy (e : option (OneOrMany string)) : bool :=
  match e with
  | None => false
  | Some (One s) => negb (String.eqb s "")
  | Some (Many _) => true
  end.

(** Result of a validation loop: [None] = a [TypeError] is thrown,
    [Some false] = [return result] (entry dropped), [Some true] = go on. *)
Fixpoint validate_actions (actions : list (option ConfigAction)) : option bool :=
  match actions with
  | [] => Some true
  | None :: _ => None
  | Some a :: rest =>
      if str_includes services (ac_service a) then validate_actions rest else Some false
  end.

Fixpoint validate_conditions (conditions : list (option ConfigCondition)) : option bool :=
  match conditions with
  | [] => Some true
  | None :: _ => None
  | Some c :: rest =>
      if negb (truthy_str (co_entity c)) then Some false
      else if negb (str_includes platforms (co_platform c)) then Some false
      else validate_conditions rest
  end.

Definition somes {A} (l : list (option A)) : list A :=
  flat_map (fun o => match o with Some a => [a] | None => [] end) l.

(** [if (!result[entityId]) result[entityId] = []; result[entityId].push(r)] *)
Definition push_rule (result : Automations) (entityId : string) (r : Automation)
    : option Automations :=
  match result !! entityId with
  | Some l => Some (<[entityId := (l ++ [r])%list]> result)
  | None =>
      if is_prototype_key entityId then None
      else Some (<[entityId := [r]]> result)
  end.

(** [for (const entityId of entities) ... push({id: crypto.randomUUID(), ...})]:
    [n] is the next fresh identifier. *)
Fixpoint push_replicas (entities : list string) (mk : nat -> Automation)
    (result : Automations) (n : nat) : option (Automations * nat) :=
  match entities with
  | [] => Some (result, n)
  | entityId :: rest =>
      match push_rule result entityId (mk n) with
      | None => None
      | Some result' => push_replicas rest mk result' (S n)
      end
  end.

(** [automation.condition ? toArray(automation.condition) : []] *)
Definition conditions_of (e : RawAutomation) : list (option ConfigCondition) :=
  match raw_condition e with None => [] | Some c => toArray c end.

(** [toArray(automation.trigger.entity)], once the field is known truthy. *)
Definition entities_of (t : ConfigTrigger) : list string :=
  match tr_entity t with Some x => toArray x | None => [] end.

(** The body of the [reduce] callback, for one value of [automations]. *)
Definition parse_entry (result : Automations) (n : nat) (automation : option RawAutomation)
    : option (Automations * nat) :=
  match automation with
  | None => None
  | Some e =>
      match raw_trigger e with
      | None => None
      | Some t =>
          if negb (str_includes platforms (tr_platform t)) then Some (result, n)
          else if negb (entity_truthy (tr_entity t)) then Some (result, n)
          else
            let actions := toArray (raw_action e) in
            match validate_actions actions with
            | None => None
            | Some false => Some (result, n)
            | Some true =>
                let conditions := conditions_of e in
                match validate_conditions conditions with
                | None => None
                | Some false => Some (result, n)
                | Some true =>
                    let entities := entities_of t in
                    push_replicas entities
                      (fun uuid => {| id := uuid; trigger := t;
                                      action := somes actions;
                                      condition := somes conditions |})
                      result n
                end
            end
      end
  end.

Fixpoint parse_entries (values : list (option RawAutomation)) (result : Automations) (n : nat)
    : option (Automations * nat) :=
  match values with
  | [] => Some (result, n)
  | a :: rest =>
      match parse_entry result n a with
      | None => None
      | Some (result', n') => parse_entries rest result' n'
      end
  end.

(** [parseConfig(automations)] on [Object.values(automations)], with the
    identifier supply starting at [n]. *)
Definition parseConfig (values : list (option RawAutomation)) (n : nat)
    : option (Automations * nat) :=
  parse_entries values ∅ n.

(** ** Engine: timer registry, event handling, start and stop *)

(** The extension object: [mqttBaseTopic] and the rule store built by
    the constructor. *)
Record Engine : Type := {
  mqttBaseTopic : string;
  automations : Automations
}.

(** Mutable state. [timeouts] is [this.timeouts] (rule id to timer
    handle); [pending] lists the outstanding [setTimeout] callbacks with
    the handle and the automation they captured; [subscribed] says
    whether the [onStateChange] listener is registered; [published] logs
    every [this.mqtt.onMessage] call. *)
Record St : Type := {
  subscribed : bool;
  timeouts : gmap nat nat;
  pending : list (nat * Automation);
  next_handle : nat;
  published : list Message
}.

Definition init_st : St :=
  {| subscribed := false; timeouts := ∅; pending := []; next_handle := 0; published := [] |}.

Definition publish (msgs : list Message) (s : St) : St :=
  {| subscribed := subscribed s; timeouts := timeouts s; pending := pending s;
     next_handle := next_handle s; published := (published s ++ msgs)%list |}.

(** [clearTimeout(h)] drops the callback with handle [h]. *)
Definition clear_pending (h : nat) (p : list (nat * Automation)) : list (nat * Automation) :=
  List.filter (fun e => negb (Nat.eqb (fst e) h)) p.

(** [stopTimeout(automationId)] *)
Definition stopTimeout (automationId : nat) (s : St) : St :=
  match timeouts s !! automationId with
  | Some h =>
      {| subscribed := subscribed s; timeouts := delete automationId (timeouts s);
         pending := clear_pending h (pending s);
         next_handle := next_handle s; published := published s |}
  | None => s
  end.

(** [startTimeout(automation, time)]: a fresh handle is registered. *)
Definition startTimeout (automation : Automation) (s : St) : St :=
  let h := next_handle s in
  {| subscribed := subscribed s;
     timeouts := <[id automation := h]> (timeouts s);
     pending := (pending s ++ [(h, automation)])%list;
     next_handle := S h; published := published s |}.

(** Truthiness of [automation.trigger.for]. *)
Definition for_truthy (f : option Q) : bool :=
  match f with Some q => negb (Qeq_bool q 0) | None => false end.

Definition runAutomationIfMatches tn (eng : Engine) (host : Host) (automation : Automation)
    (update from to : Update) (s : St) : St :=
  match checkTrigger tn (trigger automation) update from to with
  | Some false => stopTimeout (id automation) s
  | None => s
  | Some true =>
      match timeouts s !! id automation with
      | Some _ => s
      | None =>
          if for_truthy (tr_for (trigger automation)) then startTimeout automation s
          else publish (snd (runActionsWithConditions tn (mqttBaseTopic eng) host
                               (condition automation) (action automation))) s
      end
  end.

(** [findAndRun]: [None] when [this.automations[entityId]] is an inherited
    [Object.prototype] member, over which [for ... of] throws. *)
Definition findAndRun tn (eng : Engine) (host : Host) (entityId : string)
    (update from to : Update) (s : St) : option St :=
  match automations eng !! entityId with
  | Some l =>
      Some (fold_left (fun s' a => runAutomationIfMatches tn eng host a update from to s') l s)
  | None => if is_prototype_key entityId then None else Some s
  end.

(** The events the extension reacts to: [start()], [stop()], a state
    change delivered by the event bus, and the expiry of the timer with
    a given handle. *)
Inductive Event : Type :=
| Start
| Stop
| StateChange (entityId : string) (update from to : Update)
| Expire (handle : nat).

Definition set_subscribed (b : bool) (s : St) : St :=
  {| subscribed := b; timeouts := timeouts s; pending := pending s;
     next_handle := next_handle s; published := published s |}.

(** The timer callback of [startTimeout]:
    [delete this.timeouts[automation.id]; this.runActionsWithConditions(...)]. *)
Definition fire tn (eng : Engine) (host : Host) (h : nat) (automation : Automation) (s : St) : St :=
  let s1 := {| subscribed := subscribed s;
               timeouts := delete (id automation) (timeouts s);
               pending := clear_pending h (pending s);
               next_handle := next_handle s; published := published s |} in
  publish (snd (runActionsWithConditions tn (mqttBaseTopic eng) host
                  (condition automation) (action automation))) s1.

Definition exec tn (eng : Engine) (host : Host) (s : St) (ev : Event) : St :=
  match ev with
  | Start => set_subscribed true s
  | Stop => set_subscribed false s   (* [this.eventBus.removeListeners(this)] *)
  | StateChange entityId update from to =>
      if subscribed s then
        match findAndRun tn eng host entityId update from to s with
        | Some s' => s'
        | None => s
        end
      else s
  | Expire h =>
      match List.find (fun e => Nat.eqb (fst e) h) (pending s) with
      | Some (_, automation) => fire tn eng host h automation s
      | None => s
      end
  end.

Definition run tn (eng : Engine) (host : Host) (s : St) (evs : list Event) : St :=
  fold_left (exec tn eng host) evs s.

(** ** Concrete configurations used by the examples below *)

Definition tn_nan : string -> option Q := fun _ => None.

(** [{platform: state, entity: X, state: ON, for: 10}] *)
Definition trig_X_for10 : ConfigTrigger :=
  {| tr_platform := Some STATE; tr_entity := Some (One "X");
     tr_action := None; tr_state := Some (One (VStr ON));
     tr_state_l1 := None; tr_state_l2 := None; tr_attribute := None;
     tr_above := None; tr_below := None; tr_for := Some 10%Q |}.

(** [{entity: Y, service: turn_on}] *)
Definition act_Y_on : ConfigAction :=
  {| ac_entity := Some "Y"; ac_service := Some TURN_ON; ac_data := None |}.

Definition raw_D : RawAutomation :=
  {| raw_trigger := Some trig_X_for10; raw_action := One (Some act_Y_on);
     raw_condition := None |}.

(** A host where [Y] resolves and is [OFF]. *)
Definition host_Y_off : Host :=
  {| resolveEntity := fun e =>
       match e with Some n => if String.eqb n "Y" then Some {| ent_name := "Y" |} else None
                  | None => None end;
     state_get := fun _ => {[ "state" := VStr OFF ]} |}.

(** The same host with [Y] already [ON]. *)
Definition host_Y_on : Host :=
  {| resolveEntity := resolveEntity host_Y_off;
     state_get := fun _ => {[ "state" := VStr ON ]} |}.

(** A condition on an entity [Z] that does not resolve. *)
Definition cond_Z : ConfigCondition :=
  {| co_platform := Some STATE; co_entity := Some "Z"; co_attribute := None;
     co_state := Some (VStr ON); co_above := None; co_below := None |}.

(** [{platform: state, entity: Y, state: ON}] *)
Definition cond_Y_on : ConfigCondition :=
  {| co_platform := Some STATE; co_entity := Some "Y"; co_attribute := None;
     co_state := Some (VStr ON); co_above := None; co_below := None |}.

Definition store_of (r : option (Automations * nat)) : Automations :=
  match r with Some (a, _) => a | None => ∅ end.

Definition eng_D : Engine :=
  {| mqttBaseTopic := "zigbee2mqtt"; automations := store_of (parseConfig [Some raw_D] 0) |}.

(** [X] switches from [OFF] to [ON]. *)
Definition ev_X_on : Event :=
  StateChange "X" {[ "state" := VStr ON ]} {[ "state" := VStr OFF ]} {[ "state" := VStr ON ]}.

(** [{platform: action, entity: R, action: single, for: 10}]. *)
Definition trig_R_single : ConfigTrigger :=
  {| tr_platform := Some ACTION; tr_entity := Some (One "R");
     tr_action := Some (One (VStr "single")); tr_state := None;
     tr_state_l1 := None; tr_state_l2 := None; tr_attribute := None;
     tr_above := None; tr_below := None; tr_for := Some 10%Q |}.

Definition raw_R : RawAutomation :=
  {| raw_trigger := Some trig_R_single; raw_action := One (Some act_Y_on);
     raw_condition := None |}.

Definition eng_R : Engine :=
  {| mqttBaseTopic := "zigbee2mqtt"; automations := store_of (parseConfig [Some raw_R] 0) |}.

(** [{platform: numeric_state, entity: T, attribute: temperature, above: 30}] *)
Definition trig_T_above30 : ConfigTrigger :=
  {| tr_platform := Some NUMERIC_STATE; tr_entity := Some (One "T");
     tr_action := None; tr_state := None;
     tr_state_l1 := None; tr_state_l2 := None; tr_attribute := Some "temperature";
     tr_above := Some 30%Q; tr_below := None; tr_for := None |}.

(** [trig_T_above30] with [below: 30] in place of [above: 30]. *)
Definition trig_T_below30 : ConfigTrigger :=
  {| tr_platform := Some NUMERIC_STATE; tr_entity := Some (One "T");
     tr_action := None; tr_state := None;
     tr_state_l1 := None; tr_state_l2 := None; tr_attribute := Some "temperature";
     tr_above := None; tr_below := Some 30%Q; tr_for := None |}.

(** [{platform: state, entity: [a, b], state: ON}] with action [turn_on Y]. *)
Definition trig_AB : ConfigTrigger :=
  {| tr_platform := Some STATE; tr_entity := Some (Many ["a"; "b"]);
     tr_action := None; tr_state := Some (One (VStr ON));
     tr_state_l1 := None; tr_state_l2 := None; tr_attribute := None;
     tr_above := None; tr_below := None; tr_for := Some 5%Q |}.

Definition raw_AB : RawAutomation :=
  {| raw_trigger := Some trig_AB; raw_action := One (Some act_Y_on); raw_condition := None |}.

(** An entry whose action names the unknown service [blink]. *)
Definition raw_blink : RawAutomation :=
  {| raw_trigger := Some trig_X_for10;
     raw_action := Many [Some act_Y_on;
                         Some {| ac_entity := Some "Y"; ac_service := Some "blink";
                                 ac_data := None |}];
     raw_condition := None |}.

(** An entry without a [trigger] field. *)
Definition raw_no_trigger : RawAutomation :=
  {| raw_trigger := None; raw_action := One (Some act_Y_on); raw_condition := None |}.

Definition ids_at (r : Automations) (e : string) : option (list nat) :=
  map id <$> r !! e.

(** The accepted values a trigger field lists ([toArray] of it, an absent
    field listing none). *)
Definition accepted_values (x : option (OneOrMany Value)) : list Value :=
  match x with None => [] | Some y => toArray y end.

(** The accepted-values field read by each state-like platform. *)
Definition accepted_field (t : ConfigTrigger) (p : string) : option (OneOrMany Value) :=
  if String.eqb p STATE then tr_state t
  else if String.eqb p STATE_L1 then tr_state_l1 t
  else tr_state_l2 t.

(** A configuration value of the shape the TypeScript types describe:
    an object with a [trigger] object, whose actions and conditions are
    objects, and whose trigger entities are not names inherited from
    [Object.prototype]. *)
Definition well_shaped (o : option RawAutomation) : Prop :=
  match o with
  | None => False
  | Some e =>
      match raw_trigger e with
      | None => False
      | Some t =>
          Forall (fun a => is_Some a) (toArray (raw_action e)) /\
          Forall (fun c => is_Some c) (conditions_of e) /\
          Forall (fun x => is_prototype_key x = false) (entities_of t)
      end
  end.

(** ** Invariant of the timer registry *)

Definition timers_ok (s : St) : Prop :=
  List.NoDup (map fst (pending s)) /\
  (forall h a, In (h, a) (pending s) -> h < next_handle s /\ timeouts s !! id a = Some h) /\
  (forall i h, timeouts s !! i = Some h -> exists a, In (h, a) (pending s) /\ id a = i).

(** At most one outstanding timer per rule id. *)
Definition at_most_one_timer (s : St) : Prop :=
  forall h1 a1 h2 a2, In (h1, a1) (pending s) -> In (h2, a2) (pending s) ->
    id a1 = id a2 -> h1 = h2 /\ a1 = a2.

(** ** The TypeScript source variant [src/automations-extension.ts]

    The older variant has no conditions, no [for] delays, no rule ids, no
    [custom] service and no [state_l1]/[state_l2] platforms; the matching
    logic sits inline in [runAutomationIfMatches], which publishes at once. *)
Module TsVariant.

(** [Object.values(ConfigPlatform)] and [Object.values(ConfigService)]. *)
Definition platforms : list string := [ACTION; STATE; NUMERIC_STATE].
Definition services : list string := [TOGGLE; TURN_ON; TURN_OFF].

(** [type Automation = {trigger, action}] *)
Record Automation : Type := {
  trigger : ConfigTrigger;
  action : list ConfigAction
}.

Abbreviation Automations := (gmap string (list Automation)).

(** [runActions]: the same [switch] as the compiled variant ([newState_of]),
    then [if (currentState === newState) continue]. *)
Fixpoint runActions (mqttBaseTopic : string) (host : Host) (actions : list ConfigAction)
    : list Message :=
  match actions with
  | [] => []
  | action :: rest =>
      match resolveEntity host (ac_entity action) with
      | None => runActions mqttBaseTopic host rest
      | Some destination =>
          let currentState := state_get host destination !! "state" in
          let newState := newState_of action currentState in
          if js_strict_eq_opt currentState (option_map VStr newState) then
            runActions mqttBaseTopic host rest
          else
            {| msg_topic := mqttBaseTopic ++ "/" ++ ent_name destination ++ "/set";
               msg_payload := PState newState |}
              :: runActions mqttBaseTopic host rest
      end
  end.

(** [runAutomationIfMatches]: the messages published. *)
Definition runAutomationIfMatches tn (mqttBaseTopic : string) (host : Host)
    (automation : Automation) (update from to : Update) : list Message :=
  let trigger := trigger automation in
  match tr_platform trigger with
  | Some platform =>
      if String.eqb platform ACTION then
        match update !! "action" with
        | None => []
        | Some a =>
            if includes (toArray_field (tr_action trigger)) a
            then runActions mqttBaseTopic host (action automation) else []
        end
      else if String.eqb platform STATE then
        match update !! "state", from !! "state", to !! "state" with
        | Some u, Some f, Some t =>
            if js_strict_eq f t then []
            else if includes (toArray_field (tr_state trigger)) u
            then runActions mqttBaseTopic host (action automation) else []
        | _, _, _ => []
        end
      else if String.eqb platform NUMERIC_STATE then
        let attribute := attr_key (tr_attribute trigger) in
        match update !! attribute, from !! attribute, to !! attribute with
        | Some _, Some f, Some t =>
            if js_strict_eq f t then []
            else if match tr_above trigger with
                    | Some a => js_ge tn (Some f) a || js_lt tn (Some t) a
                    | None => false end then []
            else if match tr_below trigger with
                    | Some b => js_le tn (Some f) b || js_gt tn (Some t) b
                    | None => false end then []
            else runActions mqttBaseTopic host (action automation)
        | _, _, _ => []
        end
      else []
  | None => []
  end.

(** [findAndRun]: [None] when [this.automations[entityId]] is an inherited
    [Object.prototype] member, over which [for ... of] throws. *)
Definition findAndRun tn (mqttBaseTopic : string) (automations : Automations) (host : Host)
    (entityId : string) (update from to : Update) : option (list Message) :=
  match automations !! entityId with
  | Some l =>
      Some (flat_map (fun a => runAutomationIfMatches tn mqttBaseTopic host a update from to) l)
  | None => if is_prototype_key entityId then None else Some []
  end.

(** The action-validation loop of [parseConfig]. *)
Fixpoint validate_actions (actions : list (option ConfigAction)) : option bool :=
  match actions with
  | [] => Some true
  | None :: _ => None
  | Some a :: rest =>
      if str_includes services (ac_service a) then validate_actions rest else Some false
  end.

Definition push_rule (result : Automations) (entityId : string) (r : Automation)
    : option Automations :=
  match result !! entityId with
  | Some l => Some (<[entityId := (l ++ [r])%list]> result)
  | None =>
      if is_prototype_key entityId then None
      else Some (<[entityId := [r]]> result)
  end.

Fixpoint push_all (entities : list string) (r : Automation) (result : Automations)
    : option Automations :=
  match entities with
  | [] => Some result
  | entityId :: rest =>
      match push_rule result entityId r with
      | None => None
      | Some result' => push_all rest r result'
      end
  end.

Definition parse_entry (result : Automations) (automation : option RawAutomation)
    : option Automations :=
  match automation with
  | None => None
  | Some e =>
      match raw_trigger e with
      | None => None
      | Some t =>
          if negb (str_includes platforms (tr_platform t)) then Some result
          else if negb (entity_truthy (tr_entity t)) then Some result
          else
            let actions := toArray (raw_action e) in
            match validate_actions actions with
            | None => None
            | Some false => Some result
            | Some true =>
                push_all (entities_of t) {| trigger := t; action := somes actions |} result
            end
      end
  end.

Fixpoint parse_entries (values : list (option RawAutomation)) (result : Automations)
    : option Automations :=
  match values with
  | [] => Some result
  | a :: rest =>
      match parse_entry result a with
      | None => None
      | Some result' => parse_entries rest result'
      end
  end.

Definition parseConfig (values : list (option RawAutomation)) : option Automations :=
  parse_entries values ∅.

End TsVariant.

(** A rule of the compiled variant seen as a rule of the TypeScript one. *)
Definition strip (a : Automation) : TsVariant.Automation :=
  {| TsVariant.trigger := trigger a; TsVariant.action := action a |}.

(** A rule store of the compiled variant seen as one of the TypeScript one. *)
Definition strip_store (r : Automations) : TsVariant.Automations := map strip <$> r.

(** A configuration entry both variants read the same way: no [condition],
    no [state_l1]/[state_l2] trigger and no [custom] action. *)
Definition ts_compatible (o : option RawAutomation) : Prop :=
  match o with
  | None => True
  | Some e =>
      conditions_of e = [] /\
      match raw_trigger e with
      | None => True
      | Some t =>
          tr_platform t <> Some STATE_L1 /\ tr_platform t <> Some STATE_L2 /\
          Forall (fun o => match o with Some a => ac_service a <> Some CUSTOM | None => True end)
            (toArray (raw_action e))
      end
  end.

(** ** Well-formedness of the rule store *)

(** What [parseConfig] checked for a rule stored under [k]. *)
Definition rule_ok (k : string) (a : Automation) : Prop :=
  str_includes platforms (tr_platform (trigger a)) = true /\
  In k (entities_of (trigger a)) /\
  Forall (fun ac => str_includes services (ac_service ac) = true) (action a) /\
  Forall (fun c => truthy_str (co_entity c) = true /\
                   str_includes platforms (co_platform c) = true) (condition a).

(** A store whose rules were validated, whose identifiers were drawn from
    [[n0, n)], increase along each bucket (the order rules were added)
    and are not shared between buckets. *)
Definition store_ok (n0 n : nat) (r : Automations) : Prop :=
  (forall k l, r !! k = Some l ->
     l <> [] /\ StronglySorted lt (map id l) /\
     Forall (fun a => rule_ok k a /\ n0 <= id a < n) l) /\
  (forall k1 k2 l1 l2 a1 a2, r !! k1 = Some l1 -> r !! k2 = Some l2 ->
     In a1 l1 -> In a2 l2 -> id a1 = id a2 -> k1 = k2).

(** A valid rule store: every rule passed validation, no bucket is empty,
    and two stored rules carry the same identifier only when they are the
    same entry of the same bucket. *)
Definition store_valid (r : Automations) : Prop :=
  (forall k l, r !! k = Some l -> l <> [] /\ Forall (rule_ok k) l) /\
  (forall k1 k2 l1 l2 i1 i2 a1 a2, r !! k1 = Some l1 -> r !! k2 = Some l2 ->
     l1 !! i1 = Some a1 -> l2 !! i2 = Some a2 -> id a1 = id a2 -> k1 = k2 /\ i1 = i2).

(** ** Further concrete data *)

(** [{entity: Y, service: custom, data: ...}] *)
Definition act_Y_custom : ConfigAction :=
  {| ac_entity := Some "Y"; ac_service := Some CUSTOM; ac_data := Some "{brightness: 10}" |}.

(** [{entity: Y, service: toggle}] *)
Definition act_Y_toggle : ConfigAction :=
  {| ac_entity := Some "Y"; ac_service := Some TOGGLE; ac_data := None |}.

(** [{entity: W, service: turn_on}]: [W] does not resolve on the hosts below. *)
Definition act_W_on : ConfigAction :=
  {| ac_entity := Some "W"; ac_service := Some TURN_ON; ac_data := None |}.

(** A host where [T] resolves and reports [temperature: 35]. *)
Definition host_T35 : Host :=
  {| resolveEntity := fun e =>
       match e with Some n => if String.eqb n "T" then Some {| ent_name := "T" |} else None
                  | None => None end;
     state_get := fun _ => {[ "temperature" := VNum 35 ]} |}.

(** [{platform: numeric_state, entity: T, attribute: temperature, above: 30}] *)
Definition cond_T_above30 : ConfigCondition :=
  {| co_platform := Some NUMERIC_STATE; co_entity := Some "T";
     co_attribute := Some "temperature"; co_state := None;
     co_above := Some 30%Q; co_below := None |}.

(** The same condition on the attribute [humidity], which [T] does not report. *)
Definition cond_T_humidity : ConfigCondition :=
  {| co_platform := Some NUMERIC_STATE; co_entity := Some "T";
     co_attribute := Some "humidity"; co_state := None;
     co_above := Some 30%Q; co_below := Some 50%Q |}.

(** [{platform: numeric_state, entity: T, attribute: temperature, above: 20, below: 30}] *)
Definition trig_T_band : ConfigTrigger :=
  {| tr_platform := Some NUMERIC_STATE; tr_entity := Some (One "T");
     tr_action := None; tr_state := None;
     tr_state_l1 := None; tr_state_l2 := None; tr_attribute := Some "temperature";
     tr_above := Some 20%Q; tr_below := Some 30%Q; tr_for := None |}.

(** [{platform: numeric_state, entity: T, attribute: temperature}] *)
Definition trig_T_any : ConfigTrigger :=
  {| tr_platform := Some NUMERIC_STATE; tr_entity := Some (One "T");
     tr_action := None; tr_state := None;
     tr_state_l1 := None; tr_state_l2 := None; tr_attribute := Some "temperature";
     tr_above := None; tr_below := None; tr_for := None |}.

(** A [temperature] snapshot. *)
Definition temp (v : Value) : Update := {[ "temperature" := v ]}.

(** A trigger with the unknown platform [zone]. *)
Definition trig_zone : ConfigTrigger :=
  {| tr_platform := Some "zone"; tr_entity := Some (One "X");
     tr_action := None; tr_state := None; tr_state_l1 := None;
     tr_state_l2 := None; tr_attribute := None;
     tr_above := None; tr_below := None; tr_for := None |}.

Definition raw_zone : RawAutomation :=
  {| raw_trigger := Some trig_zone; raw_action := One (Some act_Y_on); raw_condition := None |}.

(** An entry whose trigger names the entities [a] and [b] and whose action
    toggles [Y], without delay. *)
Definition trig_AB_now : ConfigTrigger :=
  {| tr_platform := Some STATE; tr_entity := Some (Many ["a"; "b"]);
     tr_action := None; tr_state := Some (One (VStr ON));
     tr_state_l1 := None; tr_state_l2 := None; tr_attribute := None;
     tr_above := None; tr_below := None; tr_for := None |}.

Definition raw_AB_now : RawAutomation :=
  {| raw_trigger := Some trig_AB_now; raw_action := One (Some act_Y_toggle);
     raw_condition := None |}.

Definition eng_AB : Engine :=
  {| mqttBaseTopic := "zigbee2mqtt"; automations := store_of (parseConfig [Some raw_AB] 0) |}.

(** [a] or [b] switches from [OFF] to [ON]. *)
Definition ev_on (e : string) : Event :=
  StateChange e {[ "state" := VStr ON ]} {[ "state" := VStr OFF ]} {[ "state" := VStr ON ]}.

(** A rule on [temperature] with [above: 30], for [Y]. *)
Definition auto_T_above30 : Automation :=
  {| id := 0; trigger := trig_T_above30; action := [act_Y_on]; condition := [] |}.

(** * Properties *)

(** ** Helper lemmas *)

(** Discharges the premises of [T] that hold on concrete data. *)
Ltac discharge T :=
  repeat match type of T with
  | ?P -> _ =>
      let H := fresh in
      assert (H : P) by (first [ now left | vm_compute; reflexivity | reflexivity ]);
      specialize (T H); clear H
  end.

(** Closes a comparison between two concrete rationals. *)
Ltac qcmp := first [ apply Qle_bool_iff; reflexivity | vm_compute; reflexivity ].

Lemma Qle_bool_true (x y : Q) : (x <= y)%Q -> Qle_bool x y = true.
Proof. apply Qle_bool_iff. Qed.

Lemma Qle_bool_false (x y : Q) : (y < x)%Q -> Qle_bool x y = false.
Proof.
  intros H. destruct (Qle_bool x y) eqn:E; [|reflexivity].
  apply Qle_bool_iff in E. exfalso. exact (Qlt_not_le _ _ H E).
Qed.

Lemma Qeq_bool_false (x y : Q) : ~ (x == y)%Q -> Qeq_bool x y = false.
Proof.
  intros H. destruct (Qeq_bool x y) eqn:E; [|reflexivity].
  apply Qeq_bool_iff in E. contradiction.
Qed.

Lemma includes_map_Some (l : list Value) (v : Value) :
  includes (map Some l) v = existsb (fun w => js_strict_eq w v) l.
Proof. induction l as [|w l IH]; simpl; [reflexivity|]. now rewrite IH. Qed.

Lemma includes_accepted (x : option (OneOrMany Value)) (v : Value) :
  includes (toArray_field x) v = true <->
  Exists (fun w => js_strict_eq w v = true) (accepted_values x).
Proof.
  destruct x as [y|]; simpl.
  - rewrite includes_map_Some, existsb_exists, List.Exists_exists. reflexivity.
  - split; [discriminate | intros H; inversion H].
Qed.

Lemma checkTrigger_action tn (t : ConfigTrigger) (u f to : Update) :
  tr_platform t = Some ACTION ->
  checkTrigger tn t u f to =
    match u !! "action" with
    | None => None
    | Some a => Some (includes (toArray_field (tr_action t)) a)
    end.
Proof. intros Hp. unfold checkTrigger. rewrite Hp. reflexivity. Qed.

Lemma checkTrigger_numeric tn (t : ConfigTrigger) (u f to : Update) :
  tr_platform t = Some NUMERIC_STATE ->
  checkTrigger tn t u f to = check_numeric tn t u f to.
Proof. intros Hp. unfold checkTrigger. rewrite Hp. reflexivity. Qed.

Lemma checkTrigger_state_like tn (t : ConfigTrigger) (p : string) (u f to : Update) :
  In p [STATE; STATE_L1; STATE_L2] -> tr_platform t = Some p ->
  checkTrigger tn t u f to =
    check_state_like (attr_or (tr_attribute t) p) (accepted_field t p) u f to.
Proof.
  intros [<-|[<-|[<-|[]]]] Hp; unfold checkTrigger; rewrite Hp; reflexivity.
Qed.

(** A negative edge cancels the rule's timer, whatever the platform. *)
Lemma runAutomationIfMatches_negative tn (eng : Engine) (host : Host) (a : Automation)
    (u f to : Update) (s : St) :
  checkTrigger tn (trigger a) u f to = NEGATIVE_EDGE ->
  runAutomationIfMatches tn eng host a u f to s = stopTimeout (id a) s.
Proof. intros H. unfold runAutomationIfMatches. now rewrite H. Qed.

(** [stop()] only unregisters the listener. *)
Lemma stop_keeps_timers tn (eng : Engine) (host : Host) (s : St) :
  timeouts (exec tn eng host s Stop) = timeouts s /\
  pending (exec tn eng host s Stop) = pending s.
Proof. split; reflexivity. Qed.

(** ** C1: stopping the engine *)

(** C1 (code_bug). Claim: after [stop()] no action fires; every pending
    timer is cancelled. The code's [stop()] only removes the event-bus
    listener: in scenario D ([for: 10] on [X], action [turn_on Y], [Y] is
    [OFF]) the timer started by the match survives [stop()], and when it
    expires [{state: ON}] is published to [Y]. *)
Theorem stop_leaves_timer_that_fires :
  let s := run tn_nan eng_D host_Y_off init_st [Start; ev_X_on; Stop] in
  subscribed s = false /\ timeouts s !! 0 = Some 0 /\ published s = [] /\
  published (exec tn_nan eng_D host_Y_off s (Expire 0)) =
    [{| msg_topic := "zigbee2mqtt/Y/set"; msg_payload := PState (Some ON) |}].
Proof. cbv zeta. repeat split; vm_compute; reflexivity. Qed.

(** ** C3: the action platform *)

(** C3 (corrected), counterexample. A trigger [action: single] with a
    [for] delay: after [single] starts its timer, an update carrying the
    other action [double] is a NEGATIVE_EDGE and cancels the timer. *)
Lemma action_trigger_other_action_cancels :
  checkTrigger tn_nan trig_R_single {[ "action" := VStr "double" ]} ∅ ∅ = NEGATIVE_EDGE /\
  (let s := run tn_nan eng_R host_Y_off init_st
              [Start; StateChange "R" {[ "action" := VStr "single" ]} ∅ ∅] in
   timeouts s !! 0 = Some 0 /\
   (let s2 := exec tn_nan eng_R host_Y_off s
                (StateChange "R" {[ "action" := VStr "double" ]} ∅ ∅) in
    timeouts s2 !! 0 = None /\ pending s2 = [])).
Proof. cbv zeta. repeat split; vm_compute; reflexivity. Qed.

(** C3 (corrected), amended. For an action-platform trigger the result is
    NO_MATCH iff [update] has no [action] field, MATCH iff [update.action]
    is one of the accepted action names, and NEGATIVE_EDGE iff
    [update.action] is present but not accepted; a NEGATIVE_EDGE cancels
    any pending timer of the rule. *)
Theorem action_trigger_results tn (eng : Engine) (host : Host) (a : Automation)
    (update from to : Update) (s : St) :
  tr_platform (trigger a) = Some ACTION ->
  (checkTrigger tn (trigger a) update from to = NO_MATCH <-> update !! "action" = None) /\
  (checkTrigger tn (trigger a) update from to = MATCH <->
     exists v, update !! "action" = Some v /\
       Exists (fun w => js_strict_eq w v = true) (accepted_values (tr_action (trigger a)))) /\
  (checkTrigger tn (trigger a) update from to = NEGATIVE_EDGE <->
     exists v, update !! "action" = Some v /\
       ~ Exists (fun w => js_strict_eq w v = true) (accepted_values (tr_action (trigger a)))) /\
  (checkTrigger tn (trigger a) update from to = NEGATIVE_EDGE ->
     runAutomationIfMatches tn eng host a update from to s = stopTimeout (id a) s).
Proof.
  intros Hp.
  assert (Hneg := runAutomationIfMatches_negative tn eng host a update from to s).
  rewrite (checkTrigger_action tn _ update from to Hp) in *.
  destruct (update !! "action") as [v|] eqn:Hv.
  - pose proof (includes_accepted (tr_action (trigger a)) v) as Hacc.
    repeat split; try discriminate; auto.
    + intros Hm. exists v. split; [reflexivity|]. apply Hacc. congruence.
    + intros [w [Hw Hx]]. injection Hw as <-. f_equal. now apply Hacc.
    + intros Hm. exists v. split; [reflexivity|]. intros Hx.
      apply Hacc in Hx. congruence.
    + intros [w [Hw Hx]]. injection Hw as <-. f_equal.
      destruct (includes (toArray_field (tr_action (trigger a))) v) eqn:Hi; [|reflexivity].
      exfalso. apply Hx, Hacc. reflexivity.
  - repeat split; try discriminate; auto; intros [w [Hw _]]; discriminate.
Qed.

Lemma action_trigger_results_witness :
  checkTrigger tn_nan trig_R_single {[ "action" := VStr "double" ]} ∅ ∅ = NEGATIVE_EDGE.
Proof.
  destruct (action_trigger_results tn_nan eng_R host_Y_off
              {| id := 0; trigger := trig_R_single; action := [act_Y_on]; condition := [] |}
              {[ "action" := VStr "double" ]} ∅ ∅ init_st) as [_ [_ [Hn _]]];
    [reflexivity|].
  apply Hn. exists (VStr "double"). split; [reflexivity|].
  intros H. inversion H as [? ? Hx|? ? Hx]; subst; [discriminate | inversion Hx].
Defined.

(** ** C4: numeric thresholds *)

(** C4 (confirmed). For a numeric-state trigger whose attribute is present
    in [update], [from] and [to] with different numeric values [x] (from)
    and [y] (to): with only [above = a], [y < a] gives NEGATIVE_EDGE, else
    [x >= a] gives NO_MATCH, else MATCH; with only [below = b], [y > b]
    gives NEGATIVE_EDGE, else [x <= b] gives NO_MATCH, else MATCH. *)
Theorem numeric_threshold_results tn (t : ConfigTrigger) (update from to : Update) (x y : Q) :
  tr_platform t = Some NUMERIC_STATE ->
  is_Some (update !! attr_key (tr_attribute t)) ->
  from !! attr_key (tr_attribute t) = Some (VNum x) ->
  to !! attr_key (tr_attribute t) = Some (VNum y) ->
  ~ (x == y)%Q ->
  (forall a, tr_above t = Some a -> tr_below t = None ->
     ((y < a)%Q -> checkTrigger tn t update from to = NEGATIVE_EDGE) /\
     ((a <= y)%Q -> (a <= x)%Q -> checkTrigger tn t update from to = NO_MATCH) /\
     ((a <= y)%Q -> (x < a)%Q -> checkTrigger tn t update from to = MATCH)) /\
  (forall b, tr_above t = None -> tr_below t = Some b ->
     ((b < y)%Q -> checkTrigger tn t update from to = NEGATIVE_EDGE) /\
     ((y <= b)%Q -> (x <= b)%Q -> checkTrigger tn t update from to = NO_MATCH) /\
     ((y <= b)%Q -> (b < x)%Q -> checkTrigger tn t update from to = MATCH)).
Proof.
  intros Hp [vu Hu] Hf Ht Hne.
  rewrite (checkTrigger_numeric tn t update from to Hp).
  unfold check_numeric. rewrite Hu, Hf, Ht. cbn [js_strict_eq].
  rewrite (Qeq_bool_false _ _ Hne). cbv zeta.
  unfold js_lt, js_ge, js_gt, js_le, to_number.
  split.
  - intros a Ha Hb. rewrite Ha, Hb. repeat split; intros H1.
    + now rewrite (Qle_bool_false _ _ H1).
    + intros H2. now rewrite (Qle_bool_true _ _ H1), (Qle_bool_true _ _ H2).
    + intros H2. now rewrite (Qle_bool_true _ _ H1), (Qle_bool_false _ _ H2).
  - intros b Ha Hb. rewrite Ha, Hb. repeat split; intros H1.
    + now rewrite (Qle_bool_false _ _ H1).
    + intros H2. now rewrite (Qle_bool_true _ _ H1), (Qle_bool_true _ _ H2).
    + intros H2. now rewrite (Qle_bool_true _ _ H1), (Qle_bool_false _ _ H2).
Qed.

(** Scenario C: [temperature] from 25 to 35 with [above: 30] is a MATCH,
    from 35 to 32 a NO_MATCH; from 35 to 25 with [below: 30] a MATCH. *)
Lemma numeric_threshold_results_witness :
  checkTrigger tn_nan trig_T_above30 {[ "temperature" := VNum 35 ]}
    {[ "temperature" := VNum 25 ]} {[ "temperature" := VNum 35 ]} = MATCH /\
  checkTrigger tn_nan trig_T_above30 {[ "temperature" := VNum 32 ]}
    {[ "temperature" := VNum 35 ]} {[ "temperature" := VNum 32 ]} = NO_MATCH /\
  checkTrigger tn_nan trig_T_below30 {[ "temperature" := VNum 25 ]}
    {[ "temperature" := VNum 35 ]} {[ "temperature" := VNum 25 ]} = MATCH.
Proof.
  split; [|split].
  - destruct (numeric_threshold_results tn_nan trig_T_above30
                {[ "temperature" := VNum 35 ]} {[ "temperature" := VNum 25 ]}
                {[ "temperature" := VNum 35 ]} 25 35) as [Habove _];
      [reflexivity | eexists; reflexivity | reflexivity | reflexivity
      | intros H; apply Qeq_bool_iff in H; discriminate |].
    destruct (Habove 30%Q eq_refl eq_refl) as [_ [_ H]].
    apply H; qcmp.
  - destruct (numeric_threshold_results tn_nan trig_T_above30
                {[ "temperature" := VNum 32 ]} {[ "temperature" := VNum 35 ]}
                {[ "temperature" := VNum 32 ]} 35 32) as [Habove _];
      [reflexivity | eexists; reflexivity | reflexivity | reflexivity
      | intros H; apply Qeq_bool_iff in H; discriminate |].
    destruct (Habove 30%Q eq_refl eq_refl) as [_ [H _]].
    apply H; qcmp.
  - destruct (numeric_threshold_results tn_nan trig_T_below30
                {[ "temperature" := VNum 25 ]} {[ "temperature" := VNum 35 ]}
                {[ "temperature" := VNum 25 ]} 35 25) as [_ Hbelow];
      [reflexivity | eexists; reflexivity | reflexivity | reflexivity
      | intros H; apply Qeq_bool_iff in H; discriminate |].
    destruct (Hbelow 30%Q eq_refl eq_refl) as [_ [_ H]].
    apply H; qcmp.
Defined.

(** ** C5 and C10: state-like platforms *)

(** C5 (confirmed). For a trigger of platform [p] among [state],
    [state_l1], [state_l2], whose attribute (default [p]) is present in
    [update], [from] and [to]: equal [from] and [to] values give NO_MATCH
    whatever [update] holds; otherwise the result is MATCH iff the
    [update] value is among the accepted values, a condition that does not
    involve the [to] value. *)
Theorem state_like_transition tn (t : ConfigTrigger) (p : string)
    (update from to : Update) (vu vf vt : Value) :
  In p [STATE; STATE_L1; STATE_L2] -> tr_platform t = Some p ->
  update !! attr_or (tr_attribute t) p = Some vu ->
  from !! attr_or (tr_attribute t) p = Some vf ->
  to !! attr_or (tr_attribute t) p = Some vt ->
  (js_strict_eq vf vt = true -> checkTrigger tn t update from to = NO_MATCH) /\
  (js_strict_eq vf vt = false ->
     (checkTrigger tn t update from to = MATCH <->
      Exists (fun w => js_strict_eq w vu = true) (accepted_values (accepted_field t p)))).
Proof.
  intros Hin Hp Hu Hf Ht.
  rewrite (checkTrigger_state_like tn t p update from to Hin Hp).
  unfold check_state_like. rewrite Hu, Hf, Ht.
  split; intros Heq; rewrite Heq; [reflexivity|].
  rewrite <- includes_accepted. split; [congruence | intros ->; reflexivity].
Qed.

(** [state: ON]: from [OFF] to [BLINK] with [update.state = ON] is a
    MATCH (the [update] value decides), from [ON] to [ON] is a NO_MATCH. *)
Lemma state_like_transition_witness :
  checkTrigger tn_nan trig_X_for10 {[ "state" := VStr ON ]}
    {[ "state" := VStr OFF ]} {[ "state" := VStr "BLINK" ]} = MATCH /\
  checkTrigger tn_nan trig_X_for10 {[ "state" := VStr ON ]}
    {[ "state" := VStr ON ]} {[ "state" := VStr ON ]} = NO_MATCH.
Proof.
  split.
  - pose proof (state_like_transition tn_nan trig_X_for10 STATE
                  {[ "state" := VStr ON ]} {[ "state" := VStr OFF ]}
                  {[ "state" := VStr "BLINK" ]} (VStr ON) (VStr OFF) (VStr "BLINK")) as T.
    discharge T. apply (proj2 T eq_refl). constructor. reflexivity.
  - pose proof (state_like_transition tn_nan trig_X_for10 STATE
                  {[ "state" := VStr ON ]} {[ "state" := VStr ON ]}
                  {[ "state" := VStr ON ]} (VStr ON) (VStr ON) (VStr ON)) as T.
    discharge T. apply (proj1 T eq_refl).
Defined.

(** C10 (confirmed). For a state-like trigger, a real transition
    ([from] and [to] values differ) whose [update] value is not accepted
    gives NEGATIVE_EDGE, and [runAutomationIfMatches] then cancels the
    rule's pending timer. *)
Theorem state_like_negative_edge tn (eng : Engine) (host : Host) (a : Automation) (p : string)
    (update from to : Update) (vu vf vt : Value) (s : St) :
  In p [STATE; STATE_L1; STATE_L2] -> tr_platform (trigger a) = Some p ->
  update !! attr_or (tr_attribute (trigger a)) p = Some vu ->
  from !! attr_or (tr_attribute (trigger a)) p = Some vf ->
  to !! attr_or (tr_attribute (trigger a)) p = Some vt ->
  js_strict_eq vf vt = false ->
  ~ Exists (fun w => js_strict_eq w vu = true) (accepted_values (accepted_field (trigger a) p)) ->
  checkTrigger tn (trigger a) update from to = NEGATIVE_EDGE /\
  runAutomationIfMatches tn eng host a update from to s = stopTimeout (id a) s.
Proof.
  intros Hin Hp Hu Hf Ht Hne Hnot.
  assert (Hc : checkTrigger tn (trigger a) update from to = NEGATIVE_EDGE).
  { rewrite (checkTrigger_state_like tn _ p update from to Hin Hp).
    unfold check_state_like. rewrite Hu, Hf, Ht, Hne. f_equal.
    destruct (includes (toArray_field (accepted_field (trigger a) p)) vu) eqn:Hi;
      [|reflexivity].
    exfalso. apply Hnot, includes_accepted, Hi. }
  split; [exact Hc | now apply runAutomationIfMatches_negative].
Qed.

(** [state: ON] with [for: 10]: once a match on [X] has started the
    timer, [X] going from [ON] to [OFF] cancels it. *)
Lemma state_like_negative_edge_witness :
  let s := run tn_nan eng_D host_Y_off init_st [Start; ev_X_on] in
  timeouts s !! 0 = Some 0 /\
  runAutomationIfMatches tn_nan eng_D host_Y_off
    {| id := 0; trigger := trig_X_for10; action := [act_Y_on]; condition := [] |}
    {[ "state" := VStr OFF ]} {[ "state" := VStr ON ]} {[ "state" := VStr OFF ]} s
  = stopTimeout 0 s.
Proof.
  cbv zeta. split; [vm_compute; reflexivity|].
  apply (state_like_negative_edge tn_nan eng_D host_Y_off
           {| id := 0; trigger := trig_X_for10; action := [act_Y_on]; condition := [] |}
           STATE _ _ _ (VStr OFF) (VStr ON) (VStr OFF)); try reflexivity; [now left|].
  intros H. inversion H as [? ? Hx|? ? Hx]; subst; [discriminate | inversion Hx].
Defined.

(** ** C2 and C9: the rule store *)

Lemma push_replicas_fresh (es : list string) (mk : nat -> Automation)
    (result : Automations) (n : nat) :
  NoDup es -> Forall (fun x => result !! x = None) es ->
  Forall (fun x => is_prototype_key x = false) es ->
  exists result',
    push_replicas es mk result n = Some (result', n + length es) /\
    (forall i x, es !! i = Some x -> result' !! x = Some [mk (n + i)]) /\
    (forall x, ~ In x es -> result' !! x = result !! x).
Proof.
  revert result n.
  induction es as [|e es IH]; intros result n Hnd Hfree Hproto.
  - exists result. simpl. rewrite Nat.add_0_r. split; [reflexivity|].
    split; [intros i x Hi; discriminate | reflexivity].
  - inversion Hnd as [|? ? Hnin Hnd']; subst.
    inversion Hfree as [|? ? He Hfree']; subst.
    inversion Hproto as [|? ? Hpe Hproto']; subst.
    destruct (IH (<[e := [mk n]]> result) (S n) Hnd') as [r' [Hpush [Hin Hout]]];
      [| exact Hproto' |].
    { apply List.Forall_forall. intros x Hx.
      rewrite lookup_insert_ne; [| intros ->; apply Hnin, list_elem_of_In, Hx].
      rewrite List.Forall_forall in Hfree'. now apply Hfree'. }
    exists r'. simpl. unfold push_rule. rewrite He, Hpe. simpl.
    rewrite Hpush. split; [f_equal; f_equal; lia|]. split.
    + intros [|i] x Hi; simpl in Hi.
      * injection Hi as <-.
        rewrite Hout by (intros H; apply Hnin, list_elem_of_In, H).
        rewrite lookup_insert_eq. now rewrite Nat.add_0_r.
      * rewrite (Hin i x Hi). do 3 f_equal. lia.
    + intros x Hx. rewrite Hout by (intros H; apply Hx; now right).
      apply lookup_insert_ne. intros ->. apply Hx. now left.
Qed.

(** C2 (corrected), counterexample. One entry whose trigger names [a] and
    [b]: the replica under [a] gets identifier 0 and the one under [b]
    identifier 1; they do not share an identifier. *)
Lemma replicas_get_distinct_ids :
  let r := store_of (parseConfig [Some raw_AB] 0) in
  ids_at r "a" = Some [0] /\ ids_at r "b" = Some [1].
Proof. cbv zeta. split; vm_compute; reflexivity. Qed.

(** C2 (corrected), amended. For a valid entry whose trigger names the
    distinct entities [es], [parseConfig] draws one fresh identifier per
    entity: the replica under the [i]-th entity carries identifier
    [n + i], so replicas of one entry carry pairwise distinct identifiers
    and have separate pending-timer slots. *)
Theorem parse_one_id_per_replica (e : RawAutomation) (t : ConfigTrigger)
    (es : list string) (n : nat) :
  raw_trigger e = Some t -> str_includes platforms (tr_platform t) = true ->
  tr_entity t = Some (Many es) ->
  validate_actions (toArray (raw_action e)) = Some true ->
  validate_conditions (conditions_of e) = Some true ->
  NoDup es -> Forall (fun x => is_prototype_key x = false) es ->
  exists r,
    parseConfig [Some e] n = Some (r, n + length es) /\
    (forall i x, es !! i = Some x -> ids_at r x = Some [n + i]) /\
    (forall i j x y, es !! i = Some x -> es !! j = Some y -> i <> j ->
       ids_at r x <> ids_at r y).
Proof.
  intros Ht Hp He Ha Hc Hnd Hproto.
  destruct (push_replicas_fresh es
              (fun uuid => {| id := uuid; trigger := t;
                              action := somes (toArray (raw_action e));
                              condition := somes (conditions_of e) |})
              ∅ n Hnd) as [r [Hpush [Hin _]]]; [| exact Hproto |].
  { apply List.Forall_forall. intros x _. apply lookup_empty. }
  assert (Hids : forall i x, es !! i = Some x -> ids_at r x = Some [n + i]).
  { intros i x Hi. unfold ids_at. now rewrite (Hin i x Hi). }
  exists r. split; [| split; [exact Hids|]].
  - unfold parseConfig, parse_entries, parse_entry.
    rewrite Ht, Hp, He. simpl. rewrite Ha, Hc.
    unfold entities_of. rewrite He. simpl. now rewrite Hpush.
  - intros i j x y Hi Hj Hij. rewrite (Hids i x Hi), (Hids j y Hj).
    intros H. injection H. lia.
Qed.

Lemma parse_one_id_per_replica_witness :
  ids_at (store_of (parseConfig [Some raw_AB] 0)) "a" <>
  ids_at (store_of (parseConfig [Some raw_AB] 0)) "b".
Proof.
  pose proof (parse_one_id_per_replica raw_AB trig_AB ["a"; "b"] 0) as T.
  discharge T.
  assert (Hnd : NoDup ["a"; "b"]).
  { apply (bool_decide_unpack _). vm_compute. exact I. }
  assert (Hpr : Forall (fun x => is_prototype_key x = false) ["a"; "b"]).
  { repeat constructor. }
  destruct (T Hnd Hpr) as [r [Hr [_ Hdist]]].
  rewrite Hr. simpl. apply (Hdist 0 1); [reflexivity | reflexivity | discriminate].
Defined.

Lemma validate_actions_unknown (l : list (option ConfigAction)) :
  Forall (fun a => is_Some a) l ->
  Exists (fun o => exists a, o = Some a /\ str_includes services (ac_service a) = false) l ->
  validate_actions l = Some false.
Proof.
  induction l as [|o l IH]; intros Hs Hx; [inversion Hx|].
  inversion Hs as [|? ? [a ->] Hs']; subst.
  simpl. destruct (str_includes services (ac_service a)) eqn:E; [|reflexivity].
  apply IH; [exact Hs'|].
  inversion Hx as [? ? [a' [Ha' Hu]]|]; subst; [|assumption].
  injection Ha' as ->. congruence.
Qed.

Lemma validate_actions_total (l : list (option ConfigAction)) :
  Forall (fun a => is_Some a) l -> validate_actions l <> None.
Proof.
  induction l as [|o l IH]; intros Hs; simpl; [discriminate|].
  inversion Hs as [|? ? [a ->] Hs']; subst.
  destruct (str_includes services (ac_service a)); [now apply IH | discriminate].
Qed.

Lemma validate_conditions_total (l : list (option ConfigCondition)) :
  Forall (fun c => is_Some c) l -> validate_conditions l <> None.
Proof.
  induction l as [|o l IH]; intros Hs; simpl; [discriminate|].
  inversion Hs as [|? ? [c ->] Hs']; subst.
  destruct (negb (truthy_str (co_entity c))); [discriminate|].
  destruct (negb (str_includes platforms (co_platform c))); [discriminate | now apply IH].
Qed.

Lemma push_replicas_total (es : list string) (mk : nat -> Automation)
    (result : Automations) (n : nat) :
  Forall (fun x => is_prototype_key x = false) es -> push_replicas es mk result n <> None.
Proof.
  revert result n. induction es as [|e es IH]; intros result n Hp; simpl; [discriminate|].
  inversion Hp as [|? ? He Hp']; subst. unfold push_rule.
  destruct (result !! e); [now apply IH|]. rewrite He. now apply IH.
Qed.

Lemma parse_entry_total (result : Automations) (n : nat) (o : option RawAutomation) :
  well_shaped o -> parse_entry result n o <> None.
Proof.
  destruct o as [e|]; [|contradiction]. simpl.
  destruct (raw_trigger e) as [t|] eqn:Ht; [|contradiction].
  intros [Ha [Hc Hp]].
  destruct (negb (str_includes platforms (tr_platform t))); [discriminate|].
  destruct (negb (entity_truthy (tr_entity t))); [discriminate|].
  destruct (validate_actions (toArray (raw_action e))) as [[|]|] eqn:Va;
    [| discriminate | exfalso; exact (validate_actions_total _ Ha Va)].
  destruct (validate_conditions (conditions_of e)) as [[|]|] eqn:Vc;
    [| discriminate | exfalso; exact (validate_conditions_total _ Hc Vc)].
  now apply push_replicas_total.
Qed.

Lemma parse_entries_skip (pre post : list (option RawAutomation)) (x : option RawAutomation)
    (result : Automations) (n : nat) :
  (forall r m, parse_entry r m x = Some (r, m)) ->
  parse_entries (pre ++ x :: post) result n = parse_entries (pre ++ post) result n.
Proof.
  revert result n. induction pre as [|y pre IH]; intros result n Hx; simpl.
  - now rewrite Hx.
  - destruct (parse_entry result n y) as [[r' n']|]; [now apply IH | reflexivity].
Qed.

(** C9 (code bug). [parseConfig] reads [automation.trigger.platform]
    before any validation: an entry without a [trigger] makes it throw,
    wherever the entry sits and whatever the other entries are, instead of
    being dropped with a warning. The rest of the claim holds: an entry
    with a trigger object whose actions are objects, one of them naming an
    unknown service, contributes no rule and consumes no identifier (the
    result is the one obtained without that entry, so every other entry
    loads as it would alone), and [parseConfig] does not throw when every
    entry is well shaped. *)
Theorem parse_missing_trigger_throws :
  (forall (pre post : list (option RawAutomation)) (e : RawAutomation) (n : nat),
     raw_trigger e = None ->
     parseConfig (pre ++ Some e :: post) n = None) /\
  (forall (pre post : list (option RawAutomation)) (e : RawAutomation) (n : nat),
     is_Some (raw_trigger e) ->
     Forall (fun a => is_Some a) (toArray (raw_action e)) ->
     Exists (fun o => exists a, o = Some a /\ str_includes services (ac_service a) = false)
       (toArray (raw_action e)) ->
     parseConfig (pre ++ Some e :: post) n = parseConfig (pre ++ post) n) /\
  (forall (values : list (option RawAutomation)) (n : nat),
     Forall well_shaped values -> parseConfig values n <> None).
Proof.
  split; [|split].
  - intros pre post e n Ht. unfold parseConfig. generalize (∅ : Automations) as result.
    revert n. induction pre as [|o pre IH]; intros n result; simpl.
    + now rewrite Ht.
    + destruct (parse_entry result n o) as [[r' n']|]; [apply IH | reflexivity].
  - intros pre post e n [t Ht] Hs Hx. unfold parseConfig.
    apply parse_entries_skip. intros r m. simpl. rewrite Ht.
    destruct (negb (str_includes platforms (tr_platform t))); [reflexivity|].
    destruct (negb (entity_truthy (tr_entity t))); [reflexivity|].
    now rewrite (validate_actions_unknown _ Hs Hx).
  - intros values n Hw. unfold parseConfig. generalize (∅ : Automations) as result.
    revert n. induction values as [|o values IH]; intros n result; simpl; [discriminate|].
    inversion Hw as [|? ? Ho Hw']; subst.
    destruct (parse_entry result n o) as [[r' n']|] eqn:E.
    + now apply IH.
    + exfalso. exact (parse_entry_total result n o Ho E).
Qed.

(** [raw_D], an entry without a trigger, then [raw_D] again: the
    configuration throws. The entry [raw_blink] (services [turn_on] and
    [blink]) is dropped next to [raw_D], and a configuration of [raw_D]
    alone parses. *)
Lemma parse_missing_trigger_throws_witness :
  parseConfig [Some raw_D; Some raw_no_trigger; Some raw_D] 0 = None /\
  parseConfig [Some raw_blink; Some raw_D] 0 = parseConfig [Some raw_D] 0 /\
  parseConfig [Some raw_D] 0 <> None.
Proof.
  destruct parse_missing_trigger_throws as [Hthrow [Hdrop Htotal]]. split; [|split].
  - apply (Hthrow [Some raw_D] [Some raw_D] raw_no_trigger 0). reflexivity.
  - apply (Hdrop [] [Some raw_D] raw_blink 0).
    + eexists; reflexivity.
    + repeat constructor; eexists; reflexivity.
    + right. left. eexists. split; reflexivity.
  - apply Htotal. repeat constructor; simpl; eexists; reflexivity.
Defined.

(** ** C7: idempotent actions *)

Lemma service_is_some (a : ConfigAction) (sv x : string) :
  ac_service a = Some sv -> service_is a x = String.eqb sv x.
Proof. intros H. unfold service_is. now rewrite H. Qed.

(** C7 (confirmed). A [turn_on], [turn_off] or [toggle] action whose
    computed new state equals the target's current [state] publishes
    nothing: [runActions] goes straight on to the next action. *)
Theorem runActions_skips_unchanged (mqttBaseTopic : string) (host : Host)
    (a : ConfigAction) (rest : list ConfigAction) (d : Entity) (cur : string) :
  In (ac_service a) [Some TURN_ON; Some TURN_OFF; Some TOGGLE] ->
  resolveEntity host (ac_entity a) = Some d ->
  state_get host d !! "state" = Some (VStr cur) ->
  newState_of a (Some (VStr cur)) = Some cur ->
  runActions mqttBaseTopic host (a :: rest) = runActions mqttBaseTopic host rest.
Proof.
  intros Hs Hd Hst Hns. cbn [runActions]. rewrite Hd, Hst, Hns.
  assert (Hc : service_is a CUSTOM = false).
  { destruct Hs as [H|[H|[H|[]]]]; rewrite (service_is_some a _ _ (eq_sym H)); reflexivity. }
  rewrite Hc. cbn [option_map js_strict_eq_opt js_strict_eq].
  now rewrite String.eqb_refl.
Qed.

(** [turn_on Y] when [Y] is already [ON]: no publish. *)
Lemma runActions_skips_unchanged_witness :
  runActions "zigbee2mqtt" host_Y_on [act_Y_on] = [].
Proof.
  pose proof (runActions_skips_unchanged "zigbee2mqtt" host_Y_on act_Y_on []
                {| ent_name := "Y" |} ON) as T.
  discharge T. exact T.
Defined.

(** ** C8: conditions *)

Lemma check_conditions_all tn (host : Host) (conds : list ConfigCondition) :
  Forall (fun c => checkCondition tn host c = true) conds ->
  check_conditions tn host conds = (conds, true).
Proof.
  induction conds as [|c cs IH]; intros H; [reflexivity|].
  inversion H as [|? ? Hc Hcs]; subst. simpl. rewrite Hc, (IH Hcs). reflexivity.
Qed.

Lemma check_conditions_stop tn (host : Host) (pre : list ConfigCondition)
    (c : ConfigCondition) (post : list ConfigCondition) :
  Forall (fun c => checkCondition tn host c = true) pre ->
  checkCondition tn host c = false ->
  check_conditions tn host (pre ++ c :: post) = ((pre ++ [c])%list, false).
Proof.
  induction pre as [|p pre IH]; intros H Hc; simpl.
  - now rewrite Hc.
  - inversion H as [|? ? Hp Hpre]; subst. rewrite Hp, (IH Hpre Hc). reflexivity.
Qed.

(** C8 (confirmed). A condition whose entity does not resolve is
    satisfied. The actions run iff every condition is satisfied (the
    empty list included); when a condition fails, the conditions after
    it are not evaluated and no action runs. *)
Theorem conditions_fail_open_conjunctive tn (mqttBaseTopic : string) (host : Host) :
  (forall c, resolveEntity host (co_entity c) = None -> checkCondition tn host c = true) /\
  (forall actions, runActionsWithConditions tn mqttBaseTopic host [] actions =
                     ([], runActions mqttBaseTopic host actions)) /\
  (forall conds actions,
     Forall (fun c => checkCondition tn host c = true) conds ->
     runActionsWithConditions tn mqttBaseTopic host conds actions =
       (conds, runActions mqttBaseTopic host actions)) /\
  (forall pre c post actions,
     Forall (fun c => checkCondition tn host c = true) pre ->
     checkCondition tn host c = false ->
     runActionsWithConditions tn mqttBaseTopic host (pre ++ c :: post) actions =
       ((pre ++ [c])%list, [])).
Proof.
  split; [| split; [| split]].
  - intros c H. unfold checkCondition. now rewrite H.
  - intros actions. reflexivity.
  - intros conds actions H. unfold runActionsWithConditions.
    now rewrite (check_conditions_all tn host conds H).
  - intros pre c post actions H Hc. unfold runActionsWithConditions.
    now rewrite (check_conditions_stop tn host pre c post H Hc).
Qed.

(** [Z] does not resolve (satisfied), [Y] is [OFF] so [state: ON] on [Y]
    fails: evaluation stops there and [turn_on Y] does not run. *)
Lemma conditions_fail_open_conjunctive_witness :
  runActionsWithConditions tn_nan "zigbee2mqtt" host_Y_off
    [cond_Z; cond_Y_on; cond_Z] [act_Y_on] = ([cond_Z; cond_Y_on], []).
Proof.
  destruct (conditions_fail_open_conjunctive tn_nan "zigbee2mqtt" host_Y_off)
    as [Hopen [_ [_ Hstop]]].
  apply (Hstop [cond_Z] cond_Y_on [cond_Z] [act_Y_on]).
  - constructor; [apply Hopen; reflexivity | constructor].
  - vm_compute. reflexivity.
Defined.

(** ** C6: the timer registry *)

Lemma nodup_fst_unique (l : list (nat * Automation)) (h : nat) (a1 a2 : Automation) :
  List.NoDup (map fst l) -> In (h, a1) l -> In (h, a2) l -> a1 = a2.
Proof.
  induction l as [|[h0 a0] l IH]; intros Hnd H1 H2; [destruct H1|].
  inversion Hnd as [|? ? Hnin Hnd']; subst.
  destruct H1 as [E1|H1], H2 as [E2|H2].
  - congruence.
  - injection E1 as -> ->. exfalso. apply Hnin. now apply (in_map fst l (h, a2)).
  - injection E2 as -> ->. exfalso. apply Hnin. now apply (in_map fst l (h, a1)).
  - now apply IH.
Qed.

Lemma in_clear_pending (l : list (nat * Automation)) (h h' : nat) (a : Automation) :
  In (h', a) (clear_pending h l) <-> In (h', a) l /\ h' <> h.
Proof.
  unfold clear_pending. rewrite filter_In. simpl.
  rewrite negb_true_iff, Nat.eqb_neq. reflexivity.
Qed.

Lemma nodup_fst_clear (l : list (nat * Automation)) (h : nat) :
  List.NoDup (map fst l) -> List.NoDup (map fst (clear_pending h l)).
Proof.
  induction l as [|[h0 a0] l IH]; intros Hnd; [constructor|].
  inversion Hnd as [|? ? Hnin Hnd']; subst.
  unfold clear_pending. simpl. destruct (negb (Nat.eqb h0 h)); simpl; [|now apply IH].
  constructor; [|now apply IH].
  intros Hin. apply in_map_iff in Hin as [[h1 a1] [E Hin]]. simpl in E; subst h1.
  apply filter_In in Hin as [Hin _]. apply Hnin. now apply (in_map fst l (h0, a1)).
Qed.

Lemma nodup_fst_snoc (l : list (nat * Automation)) (h : nat) (a : Automation) :
  List.NoDup (map fst l) -> (forall h' a', In (h', a') l -> h' < h) ->
  List.NoDup (map fst (l ++ [(h, a)])).
Proof.
  induction l as [|[h0 a0] l IH]; intros Hnd Hlt; simpl.
  - constructor; [intros []|constructor].
  - inversion Hnd as [|? ? Hnin Hnd']; subst.
    constructor.
    + intros Hin. apply in_map_iff in Hin as [[h1 a1] [E Hin]]. simpl in E; subst h1.
      apply in_app_or in Hin as [Hin|[E|[]]].
      * apply Hnin. now apply (in_map fst l (h0, a1)).
      * injection E as E1 E2. specialize (Hlt h0 a0 (or_introl eq_refl)). lia.
    + apply IH; [exact Hnd'|]. intros h' a' Hin. apply (Hlt h' a'). now right.
Qed.

Lemma timers_ok_unique (s : St) : timers_ok s -> at_most_one_timer s.
Proof.
  intros [Hnd [Hp _]] h1 a1 h2 a2 H1 H2 Hid.
  destruct (Hp h1 a1 H1) as [_ E1], (Hp h2 a2 H2) as [_ E2].
  rewrite Hid in E1. rewrite E1 in E2. injection E2 as ->.
  split; [reflexivity|]. exact (nodup_fst_unique _ _ _ _ Hnd H1 H2).
Qed.

Lemma publish_ok (msgs : list Message) (s : St) : timers_ok s -> timers_ok (publish msgs s).
Proof. intros H. exact H. Qed.

Lemma stopTimeout_ok (i : nat) (s : St) : timers_ok s -> timers_ok (stopTimeout i s).
Proof.
  intros Hok. unfold stopTimeout.
  destruct (timeouts s !! i) as [h|] eqn:Hi; [|exact Hok].
  destruct Hok as [Hnd [Hp Ht]]. split; [|split]; simpl.
  - now apply nodup_fst_clear.
  - intros h' a' Hin. apply in_clear_pending in Hin as [Hin Hne].
    destruct (Hp h' a' Hin) as [Hlt Hto]. split; [exact Hlt|].
    rewrite lookup_delete_ne; [exact Hto|]. intros E. subst i. congruence.
  - intros j h' Hj. destruct (decide (i = j)) as [<-|Hij].
    + now rewrite lookup_delete_eq in Hj.
    + rewrite lookup_delete_ne in Hj by exact Hij.
      destruct (Ht j h' Hj) as [a' [Hin Hid]]. exists a'. split; [|exact Hid].
      apply in_clear_pending. split; [exact Hin|]. intros ->.
      destruct (Ht i h Hi) as [a0 [Hin0 Hid0]].
      assert (a0 = a') by exact (nodup_fst_unique _ _ _ _ Hnd Hin0 Hin).
      subst a0. congruence.
Qed.

Lemma startTimeout_ok (a : Automation) (s : St) :
  timers_ok s -> timeouts s !! id a = None -> timers_ok (startTimeout a s).
Proof.
  intros [Hnd [Hp Ht]] Hnone. unfold startTimeout. split; [|split]; simpl.
  - apply nodup_fst_snoc; [exact Hnd|]. intros h' a' Hin. now apply (Hp h' a').
  - intros h' a' Hin. apply in_app_or in Hin as [Hin|[E|[]]].
    + destruct (Hp h' a' Hin) as [Hlt Hto]. split; [lia|].
      rewrite lookup_insert_ne; [exact Hto|]. intros E. rewrite E in Hnone. congruence.
    + injection E as -> ->. split; [lia|]. apply lookup_insert_eq.
  - intros j h' Hj. destruct (decide (id a = j)) as [<-|Hij].
    + rewrite lookup_insert_eq in Hj. injection Hj as <-.
      exists a. split; [apply in_or_app; right; now left | reflexivity].
    + rewrite lookup_insert_ne in Hj by exact Hij.
      destruct (Ht j h' Hj) as [a' [Hin Hid]]. exists a'.
      split; [apply in_or_app; now left | exact Hid].
Qed.

Lemma runAutomationIfMatches_ok tn (eng : Engine) (host : Host) (a : Automation)
    (u f to : Update) (s : St) :
  timers_ok s -> timers_ok (runAutomationIfMatches tn eng host a u f to s).
Proof.
  intros Hok. unfold runAutomationIfMatches.
  destruct (checkTrigger tn (trigger a) u f to) as [[|]|].
  - destruct (timeouts s !! id a) eqn:Hi; [exact Hok|].
    destruct (for_truthy (tr_for (trigger a))).
    + now apply startTimeout_ok.
    + now apply publish_ok.
  - now apply stopTimeout_ok.
  - exact Hok.
Qed.

Lemma findAndRun_ok tn (eng : Engine) (host : Host) (e : string) (u f to : Update) (s s' : St) :
  timers_ok s -> findAndRun tn eng host e u f to s = Some s' -> timers_ok s'.
Proof.
  intros Hok. unfold findAndRun.
  destruct (automations eng !! e) as [l|].
  - intros H. injection H as <-. revert s Hok.
    induction l as [|a l IH]; intros s Hok; simpl; [exact Hok|].
    apply IH. now apply runAutomationIfMatches_ok.
  - destruct (is_prototype_key e); [discriminate|]. intros H. now injection H as <-.
Qed.

Lemma fire_eq tn (eng : Engine) (host : Host) (h : nat) (a : Automation) (s : St) :
  timeouts s !! id a = Some h ->
  fire tn eng host h a s =
    publish (snd (runActionsWithConditions tn (mqttBaseTopic eng) host
                    (condition a) (action a))) (stopTimeout (id a) s).
Proof. intros H. unfold fire, stopTimeout. now rewrite H. Qed.

Lemma exec_expire tn (eng : Engine) (host : Host) (s : St) (h : nat) (a : Automation) :
  timers_ok s -> In (h, a) (pending s) ->
  exec tn eng host s (Expire h) =
    publish (snd (runActionsWithConditions tn (mqttBaseTopic eng) host
                    (condition a) (action a))) (stopTimeout (id a) s).
Proof.
  intros [Hnd [Hp Ht]] Hin. simpl.
  destruct (List.find (fun e => Nat.eqb (fst e) h) (pending s)) as [[h' a']|] eqn:Hf.
  - apply find_some in Hf as [Hin' Heq]. simpl in Heq. apply Nat.eqb_eq in Heq. subst h'.
    assert (a' = a) by exact (nodup_fst_unique _ _ _ _ Hnd Hin' Hin). subst a'.
    apply fire_eq. exact (proj2 (Hp h a Hin)).
  - exfalso. apply find_none with (x := (h, a)) in Hf; [|exact Hin].
    simpl in Hf. now rewrite Nat.eqb_refl in Hf.
Qed.

Lemma exec_ok tn (eng : Engine) (host : Host) (s : St) (ev : Event) :
  timers_ok s -> timers_ok (exec tn eng host s ev).
Proof.
  intros Hok. destruct ev as [| |e u f to|h]; simpl.
  - exact Hok.
  - exact Hok.
  - destruct (subscribed s); [|exact Hok].
    destruct (findAndRun tn eng host e u f to s) as [s'|] eqn:E; [|exact Hok].
    exact (findAndRun_ok tn eng host e u f to s s' Hok E).
  - destruct (List.find (fun e => Nat.eqb (fst e) h) (pending s)) as [[h' a]|] eqn:Hf; [|exact Hok].
    apply find_some in Hf as [Hin Heq]. simpl in Heq. apply Nat.eqb_eq in Heq. subst h'.
    rewrite (fire_eq tn eng host h a s (proj2 (proj1 (proj2 Hok) h a Hin))).
    apply publish_ok, stopTimeout_ok, Hok.
Qed.

(** C6 (confirmed). (a) A MATCH for a rule whose id already has a pending
    timer changes nothing. (b) A NEGATIVE_EDGE removes the id from
    [this.timeouts] and clears its timer. (c) [timers_ok] holds in every
    state reached from the initial one and is preserved by every event
    (state change, timer expiry, start, stop); in such states each rule id
    has at most one outstanding timer, and a firing timer is removed from
    both the registry and the outstanding timers. *)
Theorem pending_timer_invariants tn (eng : Engine) (host : Host) :
  (forall a u f to s,
     checkTrigger tn (trigger a) u f to = MATCH -> is_Some (timeouts s !! id a) ->
     runAutomationIfMatches tn eng host a u f to s = s) /\
  (forall a u f to s,
     checkTrigger tn (trigger a) u f to = NEGATIVE_EDGE ->
     timeouts (runAutomationIfMatches tn eng host a u f to s) = delete (id a) (timeouts s) /\
     (forall h, timeouts s !! id a = Some h ->
        forall a', ~ In (h, a') (pending (runAutomationIfMatches tn eng host a u f to s)))) /\
  (forall evs, timers_ok (run tn eng host init_st evs)) /\
  (forall s ev, timers_ok s -> timers_ok (exec tn eng host s ev)) /\
  (forall s, timers_ok s -> at_most_one_timer s) /\
  (forall s h a, timers_ok s -> In (h, a) (pending s) ->
     timeouts (exec tn eng host s (Expire h)) !! id a = None /\
     forall a', ~ In (h, a') (pending (exec tn eng host s (Expire h)))).
Proof.
  split; [| split; [| split; [| split; [| split]]]].
  - intros a u f to s Hm [h Hh]. unfold runAutomationIfMatches. now rewrite Hm, Hh.
  - intros a u f to s Hn. rewrite (runAutomationIfMatches_negative tn eng host a u f to s Hn).
    unfold stopTimeout. destruct (timeouts s !! id a) as [h|] eqn:Hi.
    + split; [reflexivity|]. intros h' Hh' a' Hin. simpl in Hin.
      injection Hh' as <-. apply in_clear_pending in Hin as [_ Hne]. now apply Hne.
    + split; [symmetry; now apply delete_id | intros h' Hh'; discriminate].
  - intros evs. unfold run.
    assert (H0 : forall s, timers_ok s -> timers_ok (fold_left (exec tn eng host) evs s)).
    { induction evs as [|ev evs IH]; intros s Hs; simpl; [exact Hs|].
      apply IH. now apply exec_ok. }
    apply H0. split; [constructor | split; [intros h a [] |]].
    intros i h Hi. simpl in Hi. now rewrite lookup_empty in Hi.
  - intros s ev. apply exec_ok.
  - apply timers_ok_unique.
  - intros s h a Hok Hin. rewrite (exec_expire tn eng host s h a Hok Hin).
    destruct Hok as [Hnd [Hp Ht]]. destruct (Hp h a Hin) as [_ Hh].
    unfold stopTimeout. rewrite Hh. simpl. split; [apply lookup_delete_eq|].
    intros a' Hin'. apply in_clear_pending in Hin' as [_ Hne]. now apply Hne.
Qed.

(** A second match of [X] while its timer is pending leaves the state as
    it is, and the expiry of that timer empties the registry. *)
Lemma pending_timer_invariants_witness :
  let a := {| id := 0; trigger := trig_X_for10; action := [act_Y_on]; condition := [] |} in
  let s := run tn_nan eng_D host_Y_off init_st [Start; ev_X_on] in
  runAutomationIfMatches tn_nan eng_D host_Y_off a
    {[ "state" := VStr ON ]} {[ "state" := VStr OFF ]} {[ "state" := VStr ON ]} s = s /\
  timeouts (exec tn_nan eng_D host_Y_off s (Expire 0)) !! 0 = None.
Proof.
  cbv zeta.
  destruct (pending_timer_invariants tn_nan eng_D host_Y_off)
    as [Hmatch [_ [Hreach [_ [_ Hfire]]]]].
  split.
  - apply Hmatch; [vm_compute; reflexivity | eexists; vm_compute; reflexivity].
  - apply (Hfire _ 0 {| id := 0; trigger := trig_X_for10; action := [act_Y_on];
                        condition := [] |}).
    + apply (Hreach [Start; ev_X_on]).
    + vm_compute. now left.
Defined.

(** ** Extra properties: actions *)

Lemma service_is_none (a : ConfigAction) (x : string) :
  ac_service a = None -> service_is a x = false.
Proof. intros H. unfold service_is. now rewrite H. Qed.

(** [runActions] handles every action on its own: running two lists in a
    row publishes what each list publishes, in order. *)
Theorem runActions_app (mqttBaseTopic : string) (host : Host) (l1 l2 : list ConfigAction) :
  runActions mqttBaseTopic host (l1 ++ l2) =
    (runActions mqttBaseTopic host l1 ++ runActions mqttBaseTopic host l2)%list.
Proof.
  induction l1 as [|a l1 IH]; [reflexivity|]. cbn [app runActions].
  destruct (resolveEntity host (ac_entity a)) as [d|]; [|exact IH].
  destruct (service_is a CUSTOM); [simpl; now rewrite IH|].
  destruct (js_strict_eq_opt _ _); [exact IH | simpl; now rewrite IH].
Qed.

Lemma runActions_cons_single (mqttBaseTopic : string) (host : Host)
    (a : ConfigAction) (l : list ConfigAction) :
  runActions mqttBaseTopic host (a :: l) =
    (runActions mqttBaseTopic host [a] ++ runActions mqttBaseTopic host l)%list.
Proof.
  cbn [runActions].
  destruct (resolveEntity host (ac_entity a)) as [d|]; [|reflexivity].
  destruct (service_is a CUSTOM); [reflexivity|].
  destruct (js_strict_eq_opt _ _); reflexivity.
Qed.

(** [runActions] publishes, action by action, what each action alone
    publishes. An action whose entity does not resolve publishes nothing;
    an action whose entity [d] resolves publishes at most one message, to
    [<base>/<name of d>/set]. *)
Theorem runActions_targets (mqttBaseTopic : string) (host : Host) (actions : list ConfigAction) :
  runActions mqttBaseTopic host actions =
    concat (map (fun a => runActions mqttBaseTopic host [a]) actions) /\
  (forall a, resolveEntity host (ac_entity a) = None -> runActions mqttBaseTopic host [a] = []) /\
  (forall a d, resolveEntity host (ac_entity a) = Some d ->
     length (runActions mqttBaseTopic host [a]) <= 1 /\
     forall m, In m (runActions mqttBaseTopic host [a]) ->
       msg_topic m = mqttBaseTopic ++ "/" ++ ent_name d ++ "/set").
Proof.
  split; [|split].
  - induction actions as [|a l IH]; [reflexivity|].
    rewrite runActions_cons_single. cbn [map concat]. now rewrite IH.
  - intros a Hd. cbn [runActions]. now rewrite Hd.
  - intros a d Hd. cbn [runActions]. rewrite Hd.
    assert (Hone : forall p,
              length [{| msg_topic := mqttBaseTopic ++ "/" ++ ent_name d ++ "/set";
                         msg_payload := p |}] <= 1 /\
              (forall m, In m [{| msg_topic := mqttBaseTopic ++ "/" ++ ent_name d ++ "/set";
                                  msg_payload := p |}] ->
                 msg_topic m = mqttBaseTopic ++ "/" ++ ent_name d ++ "/set")).
    { intros p. split; [simpl; lia|]. intros m [<-|[]]. reflexivity. }
    destruct (service_is a CUSTOM); [apply Hone|].
    destruct (js_strict_eq_opt _ _); [|apply Hone].
    split; [simpl; lia | intros m []].
Qed.

(** [turn_on W] ([W] does not resolve) publishes nothing; [toggle Y]
    publishes at most one message, to [Y]'s topic. *)
Lemma runActions_targets_witness :
  runActions "zigbee2mqtt" host_Y_off [act_W_on] = [] /\
  length (runActions "zigbee2mqtt" host_Y_off [act_Y_toggle]) <= 1.
Proof.
  destruct (runActions_targets "zigbee2mqtt" host_Y_off [act_W_on; act_Y_toggle])
    as [_ [Hnone Hsome]].
  split.
  - apply Hnone. reflexivity.
  - apply (Hsome act_Y_toggle {| ent_name := "Y" |}). reflexivity.
Defined.

(** A [custom] action whose entity resolves always publishes its [data]
    to the entity's [set] topic, whatever the entity's current state. *)
Theorem runActions_custom_publishes (mqttBaseTopic : string) (host : Host)
    (a : ConfigAction) (rest : list ConfigAction) (d : Entity) :
  ac_service a = Some CUSTOM ->
  resolveEntity host (ac_entity a) = Some d ->
  runActions mqttBaseTopic host (a :: rest) =
    {| msg_topic := mqttBaseTopic ++ "/" ++ ent_name d ++ "/set";
       msg_payload := PData (ac_data a) |} :: runActions mqttBaseTopic host rest.
Proof.
  intros Hs Hd. cbn [runActions]. rewrite Hd.
  rewrite (service_is_some a CUSTOM CUSTOM Hs), String.eqb_refl. reflexivity.
Qed.

Lemma runActions_custom_publishes_witness :
  runActions "zigbee2mqtt" host_Y_on [act_Y_custom] =
    [{| msg_topic := "zigbee2mqtt/Y/set"; msg_payload := PData (Some "{brightness: 10}") |}].
Proof.
  pose proof (runActions_custom_publishes "zigbee2mqtt" host_Y_on act_Y_custom []
                {| ent_name := "Y" |}) as T.
  discharge T. exact T.
Defined.

(** A [toggle] action whose entity resolves is never skipped: it publishes
    [{state: OFF}] when the entity's [state] is ["ON"] and [{state: ON}]
    otherwise (also when the entity reports no [state]). *)
Theorem runActions_toggle_publishes (mqttBaseTopic : string) (host : Host)
    (a : ConfigAction) (rest : list ConfigAction) (d : Entity) :
  ac_service a = Some TOGGLE ->
  resolveEntity host (ac_entity a) = Some d ->
  runActions mqttBaseTopic host (a :: rest) =
    {| msg_topic := mqttBaseTopic ++ "/" ++ ent_name d ++ "/set";
       msg_payload := PState (Some (if js_strict_eq_opt (state_get host d !! "state")
                                                         (Some (VStr ON))
                                    then OFF else ON)) |}
      :: runActions mqttBaseTopic host rest.
Proof.
  intros Hs Hd. cbn [runActions]. rewrite Hd.
  unfold newState_of. rewrite !(service_is_some a _ _ Hs). simpl.
  destruct (js_strict_eq_opt (state_get host d !! "state") (Some (VStr ON))) eqn:E.
  - destruct (state_get host d !! "state") as [[s|q]|]; simpl in E |- *; try discriminate.
    apply String.eqb_eq in E. subst s. reflexivity.
  - cbn [option_map]. rewrite E. reflexivity.
Qed.

Lemma runActions_toggle_publishes_witness :
  runActions "zigbee2mqtt" host_Y_on [act_Y_toggle] =
    [{| msg_topic := "zigbee2mqtt/Y/set"; msg_payload := PState (Some OFF) |}] /\
  runActions "zigbee2mqtt" host_Y_off [act_Y_toggle] =
    [{| msg_topic := "zigbee2mqtt/Y/set"; msg_payload := PState (Some ON) |}].
Proof.
  split.
  - pose proof (runActions_toggle_publishes "zigbee2mqtt" host_Y_on act_Y_toggle []
                  {| ent_name := "Y" |}) as T.
    discharge T. exact T.
  - pose proof (runActions_toggle_publishes "zigbee2mqtt" host_Y_off act_Y_toggle []
                  {| ent_name := "Y" |}) as T.
    discharge T. exact T.
Defined.

(** ** Extra properties: conditions *)

Lemma js_lt_true tn (v : option Value) (a x : Q) :
  to_number tn v = Some x -> js_lt tn v a = true <-> (x < a)%Q.
Proof.
  intros H. unfold js_lt. rewrite H. rewrite negb_true_iff. split.
  - intros E. destruct (Qlt_le_dec x a) as [Hl|Hl]; [exact Hl|].
    rewrite (Qle_bool_true _ _ Hl) in E. discriminate.
  - intros Hl. now apply Qle_bool_false.
Qed.

Lemma js_gt_true tn (v : option Value) (b x : Q) :
  to_number tn v = Some x -> js_gt tn v b = true <-> (b < x)%Q.
Proof.
  intros H. unfold js_gt. rewrite H. rewrite negb_true_iff. split.
  - intros E. destruct (Qlt_le_dec b x) as [Hl|Hl]; [exact Hl|].
    rewrite (Qle_bool_true _ _ Hl) in E. discriminate.
  - intros Hl. now apply Qle_bool_false.
Qed.

(** A numeric condition on an entity that resolves is satisfied iff,
    whenever the entity's attribute is a number [x], [x] is at least
    [above] and at most [below] (each bound only when it is set). In
    particular a missing or non-numeric attribute satisfies it. *)
Theorem numeric_condition_bounds tn (host : Host) (c : ConfigCondition) (d : Entity) :
  co_platform c = Some NUMERIC_STATE ->
  resolveEntity host (co_entity c) = Some d ->
  checkCondition tn host c = true <->
  (forall x, to_number tn (state_get host d !! attr_key (co_attribute c)) = Some x ->
     (forall a, co_above c = Some a -> (a <= x)%Q) /\
     (forall b, co_below c = Some b -> (x <= b)%Q)).
Proof.
  intros Hp Hd. unfold checkCondition. rewrite Hd, Hp. cbn [String.eqb].
  unfold STATE, STATE_L1, STATE_L2, NUMERIC_STATE. cbn.
  remember (state_get host d !! attr_key (co_attribute c)) as v eqn:Ev.
  destruct (to_number tn v) as [x|] eqn:Hx.
  - split.
    + intros H y Hy. injection Hy as <-. split.
      * intros a Ha. rewrite Ha in H.
        destruct (js_lt tn v a) eqn:E; [discriminate|].
        destruct (Qlt_le_dec x a) as [Hl|Hl]; [|exact Hl].
        apply (js_lt_true tn v a x Hx) in Hl. congruence.
      * intros b Hb. rewrite Hb in H.
        destruct (match co_above c with Some a => js_lt tn v a | None => false end);
          [discriminate|].
        destruct (js_gt tn v b) eqn:E; [discriminate|].
        destruct (Qlt_le_dec b x) as [Hl|Hl]; [|exact Hl].
        apply (js_gt_true tn v b x Hx) in Hl. congruence.
    + intros H. destruct (H x eq_refl) as [Ha Hb].
      destruct (co_above c) as [a|].
      * destruct (js_lt tn v a) eqn:E.
        -- apply (js_lt_true tn v a x Hx) in E. specialize (Ha a eq_refl).
           exfalso. exact (Qlt_not_le _ _ E Ha).
        -- destruct (co_below c) as [b|]; [|reflexivity].
           destruct (js_gt tn v b) eqn:E'; [|reflexivity].
           apply (js_gt_true tn v b x Hx) in E'. specialize (Hb b eq_refl).
           exfalso. exact (Qlt_not_le _ _ E' Hb).
      * destruct (co_below c) as [b|]; [|reflexivity].
        destruct (js_gt tn v b) eqn:E'; [|reflexivity].
        apply (js_gt_true tn v b x Hx) in E'. specialize (Hb b eq_refl).
        exfalso. exact (Qlt_not_le _ _ E' Hb).
  - split; [intros _ y Hy; discriminate|]. intros _.
    unfold js_lt, js_gt. rewrite Hx.
    destruct (co_above c), (co_below c); reflexivity.
Qed.

(** [T] reports [temperature: 35]: [above: 30] on [temperature] holds, and a
    condition on [humidity], which [T] does not report, holds too. *)
Lemma numeric_condition_bounds_witness :
  checkCondition tn_nan host_T35 cond_T_above30 = true /\
  checkCondition tn_nan host_T35 cond_T_humidity = true.
Proof.
  split.
  - apply (numeric_condition_bounds tn_nan host_T35 cond_T_above30 {| ent_name := "T" |});
      [reflexivity | reflexivity |].
    intros x Hx. vm_compute in Hx. injection Hx as <-. split.
    + intros a Ha. injection Ha as <-. qcmp.
    + intros b Hb. discriminate.
  - apply (numeric_condition_bounds tn_nan host_T35 cond_T_humidity {| ent_name := "T" |});
      [reflexivity | reflexivity |].
    intros x Hx. vm_compute in Hx. discriminate.
Defined.

(** A condition on an entity that resolves, with platform [state],
    [state_l1] or [state_l2], holds iff the entity's attribute (by
    default the platform's name) is strictly equal to the condition's
    [state] field, so a condition without [state] holds only when the
    attribute is absent. A condition with platform [action] always holds. *)
Theorem state_condition_holds tn (host : Host) (c : ConfigCondition) (d : Entity) :
  resolveEntity host (co_entity c) = Some d ->
  (forall p, In p [STATE; STATE_L1; STATE_L2] -> co_platform c = Some p ->
     checkCondition tn host c =
       js_strict_eq_opt (state_get host d !! attr_or (co_attribute c) p) (co_state c)) /\
  (co_platform c = Some ACTION -> checkCondition tn host c = true).
Proof.
  intros Hd. split.
  - intros p Hin Hp. unfold checkCondition, check_state_condition. rewrite Hd, Hp.
    destruct Hin as [<-|[<-|[<-|[]]]]; cbn -[js_strict_eq_opt attr_or];
      destruct (js_strict_eq_opt _ _); reflexivity.
  - intros Hp. unfold checkCondition. rewrite Hd, Hp. reflexivity.
Qed.

(** [Y] is [OFF]: [{platform: state, entity: Y, state: ON}] fails, and
    the same condition with platform [action] holds. *)
Lemma state_condition_holds_witness :
  checkCondition tn_nan host_Y_off cond_Y_on = false /\
  checkCondition tn_nan host_Y_off
    {| co_platform := Some ACTION; co_entity := Some "Y"; co_attribute := None;
       co_state := Some (VStr ON); co_above := None; co_below := None |} = true.
Proof.
  split.
  - destruct (state_condition_holds tn_nan host_Y_off cond_Y_on {| ent_name := "Y" |} eq_refl)
      as [H _].
    rewrite (H STATE (or_introl eq_refl) eq_refl). vm_compute. reflexivity.
  - destruct (state_condition_holds tn_nan host_Y_off
                {| co_platform := Some ACTION; co_entity := Some "Y"; co_attribute := None;
                   co_state := Some (VStr ON); co_above := None; co_below := None |}
                {| ent_name := "Y" |} eq_refl) as [_ H].
    exact (H eq_refl).
Defined.
(** ** Extra properties: the trigger matcher *)

(** An update that does not carry the trigger's attribute in all three of
    [update], [from] and [to] is ignored (NO_MATCH) by every state-like
    and every numeric trigger; a numeric trigger also ignores an update
    in which the attribute's value did not change ([from[attr] === to[attr]]). *)
Theorem trigger_ignores_incomplete_update tn (t : ConfigTrigger) (u f to : Update) :
  (forall p, In p [STATE; STATE_L1; STATE_L2] -> tr_platform t = Some p ->
     let k := attr_or (tr_attribute t) p in
     u !! k = None \/ f !! k = None \/ to !! k = None ->
     checkTrigger tn t u f to = NO_MATCH) /\
  (tr_platform t = Some NUMERIC_STATE ->
     let k := attr_key (tr_attribute t) in
     u !! k = None \/ f !! k = None \/ to !! k = None \/
     (exists x y, f !! k = Some x /\ to !! k = Some y /\ js_strict_eq x y = true) ->
     checkTrigger tn t u f to = NO_MATCH).
Proof.
  split.
  - intros p Hin Hp k Hk. rewrite (checkTrigger_state_like tn t p u f to Hin Hp).
    unfold check_state_like. fold k.
    destruct Hk as [H|[H|H]]; rewrite H;
      destruct (u !! k), (f !! k), (to !! k); reflexivity.
  - intros Hp k Hk. rewrite (checkTrigger_numeric tn t u f to Hp).
    unfold check_numeric. fold k.
    destruct Hk as [H|[H|[H|[x [y [Hx [Hy Hxy]]]]]]].
    + rewrite H. reflexivity.
    + rewrite H. destruct (u !! k); reflexivity.
    + rewrite H. destruct (u !! k), (f !! k); reflexivity.
    + rewrite Hx, Hy, Hxy. destruct (u !! k); reflexivity.
Qed.

(** [temperature] missing from [from], and unchanged at 35. *)
Lemma trigger_ignores_incomplete_update_witness :
  checkTrigger tn_nan trig_T_above30 (temp (VNum 40)) ∅ (temp (VNum 40)) = NO_MATCH /\
  checkTrigger tn_nan trig_T_above30 (temp (VNum 35)) (temp (VNum 35)) (temp (VNum 35)) = NO_MATCH.
Proof.
  destruct (trigger_ignores_incomplete_update tn_nan trig_T_above30
              (temp (VNum 40)) ∅ (temp (VNum 40))) as [_ H1].
  destruct (trigger_ignores_incomplete_update tn_nan trig_T_above30
              (temp (VNum 35)) (temp (VNum 35)) (temp (VNum 35))) as [_ H2].
  split.
  - apply H1; [reflexivity|]. right. left. reflexivity.
  - apply H2; [reflexivity|]. right. right. right.
    exists (VNum 35), (VNum 35). split; [reflexivity | split; reflexivity].
Defined.

Lemma js_lt_false tn (v : option Value) (a x : Q) :
  to_number tn v = Some x -> js_lt tn v a = false -> (a <= x)%Q.
Proof.
  intros H E. destruct (Qlt_le_dec x a) as [Hl|Hl]; [|exact Hl].
  apply (js_lt_true tn v a x H) in Hl. congruence.
Qed.

Lemma js_gt_false tn (v : option Value) (b x : Q) :
  to_number tn v = Some x -> js_gt tn v b = false -> (x <= b)%Q.
Proof.
  intros H E. destruct (Qlt_le_dec b x) as [Hl|Hl]; [|exact Hl].
  apply (js_gt_true tn v b x H) in Hl. congruence.
Qed.

Lemma js_ge_false tn (v : option Value) (a x : Q) :
  to_number tn v = Some x -> js_ge tn v a = false -> (x < a)%Q.
Proof.
  unfold js_ge. intros H E. rewrite H in E.
  destruct (Qlt_le_dec x a) as [Hl|Hl]; [exact Hl|].
  rewrite (Qle_bool_true _ _ Hl) in E. discriminate.
Qed.

Lemma js_le_false tn (v : option Value) (b x : Q) :
  to_number tn v = Some x -> js_le tn v b = false -> (b < x)%Q.
Proof.
  unfold js_le. intros H E. rewrite H in E.
  destruct (Qlt_le_dec b x) as [Hl|Hl]; [exact Hl|].
  rewrite (Qle_bool_true _ _ Hl) in E. discriminate.
Qed.

(** A numeric trigger with both [above] and [below] set never matches a
    transition between two numeric values: a MATCH needs
    [below < from < above <= to <= below]. *)
Theorem numeric_band_never_matches tn (t : ConfigTrigger) (u f to : Update) (a b x y : Q) :
  tr_platform t = Some NUMERIC_STATE -> tr_above t = Some a -> tr_below t = Some b ->
  to_number tn (f !! attr_key (tr_attribute t)) = Some x ->
  to_number tn (to !! attr_key (tr_attribute t)) = Some y ->
  checkTrigger tn t u f to <> MATCH.
Proof.
  intros Hp Ha Hb Hx Hy. rewrite (checkTrigger_numeric tn t u f to Hp).
  unfold check_numeric. rewrite Ha, Hb.
  destruct (u !! attr_key (tr_attribute t)); [|discriminate].
  destruct (f !! attr_key (tr_attribute t)) as [fv|]; [|discriminate].
  destruct (to !! attr_key (tr_attribute t)) as [tv|]; [|discriminate].
  destruct (js_strict_eq fv tv); [discriminate|].
  destruct (js_lt tn (Some tv) a) eqn:E1; [discriminate|].
  destruct (js_ge tn (Some fv) a) eqn:E2; [discriminate|].
  destruct (js_gt tn (Some tv) b) eqn:E3; [discriminate|].
  destruct (js_le tn (Some fv) b) eqn:E4; [discriminate|].
  apply (js_lt_false tn _ a y Hy) in E1. apply (js_ge_false tn _ a x Hx) in E2.
  apply (js_gt_false tn _ b y Hy) in E3. apply (js_le_false tn _ b x Hx) in E4.
  intros _. apply (Qlt_irrefl x).
  apply (Qlt_le_trans _ a); [exact E2|].
  apply (Qle_trans _ y); [exact E1|].
  apply Qlt_le_weak. apply (Qle_lt_trans _ b); [exact E3 | exact E4].
Qed.

(** [above: 20, below: 30]: entering the band from 15 to 25 is no MATCH. *)
Lemma numeric_band_never_matches_witness :
  checkTrigger tn_nan trig_T_band (temp (VNum 25)) (temp (VNum 15)) (temp (VNum 25)) <> MATCH.
Proof.
  apply (numeric_band_never_matches tn_nan trig_T_band _ _ _ 20 30 15 25); reflexivity.
Defined.

(** A numeric trigger without [above] and [below] matches every update in
    which the attribute is present and its value changed. *)
Theorem numeric_unbounded_matches_change tn (t : ConfigTrigger) (u f to : Update) (v x y : Value) :
  tr_platform t = Some NUMERIC_STATE -> tr_above t = None -> tr_below t = None ->
  u !! attr_key (tr_attribute t) = Some v ->
  f !! attr_key (tr_attribute t) = Some x ->
  to !! attr_key (tr_attribute t) = Some y ->
  js_strict_eq x y = false ->
  checkTrigger tn t u f to = MATCH.
Proof.
  intros Hp Ha Hb Hu Hf Ht Hxy. rewrite (checkTrigger_numeric tn t u f to Hp).
  unfold check_numeric. now rewrite Ha, Hb, Hu, Hf, Ht, Hxy.
Qed.

Lemma numeric_unbounded_matches_change_witness :
  checkTrigger tn_nan trig_T_any (temp (VNum 21)) (temp (VNum 20)) (temp (VNum 21)) = MATCH.
Proof.
  apply (numeric_unbounded_matches_change tn_nan trig_T_any _ _ _ (VNum 21) (VNum 20) (VNum 21));
    reflexivity.
Defined.

Lemma numeric_nan_not_negative tn (t : ConfigTrigger) (u f to : Update) :
  tr_platform t = Some NUMERIC_STATE ->
  to_number tn (to !! attr_key (tr_attribute t)) = None ->
  checkTrigger tn t u f to <> NEGATIVE_EDGE.
Proof.
  intros Hp Hy. rewrite (checkTrigger_numeric tn t u f to Hp).
  unfold check_numeric.
  destruct (u !! attr_key (tr_attribute t)); [|discriminate].
  destruct (f !! attr_key (tr_attribute t)) as [fv|]; [|discriminate].
  destruct (to !! attr_key (tr_attribute t)) as [tv|]; [|discriminate].
  destruct (js_strict_eq fv tv); [discriminate|].
  unfold js_lt, js_gt. rewrite Hy.
  destruct (tr_above t) as [a|]; [destruct (js_ge tn (Some fv) a)|];
    (destruct (tr_below t) as [b|]; [destruct (js_le tn (Some fv) b)|]); discriminate.
Qed.

(** When the attribute's new value is not a number (NaN, e.g. a sensor
    reporting a string), a numeric trigger never yields NEGATIVE_EDGE, and
    [runAutomationIfMatches] leaves the state of a rule with a pending
    timer unchanged: such an update never cancels the timer. *)
Theorem numeric_nan_never_cancels tn (t : ConfigTrigger) (u f to : Update) :
  tr_platform t = Some NUMERIC_STATE ->
  to_number tn (to !! attr_key (tr_attribute t)) = None ->
  checkTrigger tn t u f to <> NEGATIVE_EDGE /\
  (forall eng host (a : Automation) (s : St) (h : nat),
     trigger a = t -> timeouts s !! id a = Some h ->
     runAutomationIfMatches tn eng host a u f to s = s).
Proof.
  intros Hp Hy. pose proof (numeric_nan_not_negative tn t u f to Hp Hy) as Hneg.
  split; [exact Hneg|].
  intros eng host a s h Ht Hh. unfold runAutomationIfMatches. rewrite Ht.
  destruct (checkTrigger tn t u f to) as [[|]|] eqn:E.
  - now rewrite Hh.
  - exfalso. exact (Hneg eq_refl).
  - reflexivity.
Qed.

(** [temperature] goes from 35 to ["unavailable"] under [above: 30],
    while the rule's timer is pending. *)
Lemma numeric_nan_never_cancels_witness :
  checkTrigger tn_nan trig_T_above30 (temp (VStr "unavailable")) (temp (VNum 35))
    (temp (VStr "unavailable")) <> NEGATIVE_EDGE /\
  runAutomationIfMatches tn_nan eng_D host_Y_off auto_T_above30
    (temp (VStr "unavailable")) (temp (VNum 35)) (temp (VStr "unavailable"))
    (startTimeout auto_T_above30 init_st) = startTimeout auto_T_above30 init_st.
Proof.
  destruct (numeric_nan_never_cancels tn_nan trig_T_above30 (temp (VStr "unavailable"))
              (temp (VNum 35)) (temp (VStr "unavailable")))
    as [H1 H2]; [reflexivity | reflexivity |].
  split; [exact H1|].
  apply (H2 eng_D host_Y_off auto_T_above30 _ 0); reflexivity.
Defined.

(** ** Extra properties: delays and the timer registry *)

(** A MATCH for a rule without a pending timer whose trigger has no [for]
    or [for: 0] runs the actions (behind the conditions) at once and
    starts no timer. *)
Theorem no_delay_runs_at_once tn (eng : Engine) (host : Host) (a : Automation)
    (u f to : Update) (s : St) :
  checkTrigger tn (trigger a) u f to = MATCH -> timeouts s !! id a = None ->
  tr_for (trigger a) = None \/ tr_for (trigger a) = Some 0%Q ->
  runAutomationIfMatches tn eng host a u f to s =
    publish (snd (runActionsWithConditions tn (mqttBaseTopic eng) host
                    (condition a) (action a))) s.
Proof.
  intros Hm Hn Hf. unfold runAutomationIfMatches. rewrite Hm, Hn.
  destruct Hf as [Hf|Hf]; rewrite Hf; reflexivity.
Qed.

(** The rule of [raw_D] with [for: 0]: [turn_on Y] is published at once. *)
Lemma no_delay_runs_at_once_witness :
  let a := {| id := 0; trigger := {| tr_platform := Some STATE; tr_entity := Some (One "X");
                                     tr_action := None; tr_state := Some (One (VStr ON));
                                     tr_state_l1 := None; tr_state_l2 := None;
                                     tr_attribute := None; tr_above := None;
                                     tr_below := None; tr_for := Some 0%Q |};
              action := [act_Y_on]; condition := [] |} in
  published (runAutomationIfMatches tn_nan eng_D host_Y_off a
               {[ "state" := VStr ON ]} {[ "state" := VStr OFF ]} {[ "state" := VStr ON ]}
               init_st) =
    [{| msg_topic := "zigbee2mqtt/Y/set"; msg_payload := PState (Some ON) |}].
Proof.
  cbv zeta.
  rewrite (no_delay_runs_at_once tn_nan eng_D host_Y_off _ _ _ _ init_st);
    [ vm_compute; reflexivity | vm_compute; reflexivity | reflexivity | right; reflexivity ].
Defined.

Lemma clear_pending_fresh (p : list (nat * Automation)) (h : nat) (a : Automation) :
  (forall h' a', In (h', a') p -> h' < h) ->
  clear_pending h (p ++ [(h, a)]) = p.
Proof.
  induction p as [|[h0 a0] p IH]; intros Hlt; unfold clear_pending in *; simpl.
  - now rewrite Nat.eqb_refl.
  - assert (Hne : Nat.eqb h0 h = false).
    { apply Nat.eqb_neq. specialize (Hlt h0 a0 (or_introl eq_refl)). lia. }
    rewrite Hne. simpl. f_equal. apply IH. intros h' a' Hin. apply (Hlt h' a'). now right.
Qed.

Lemma find_fresh (p : list (nat * Automation)) (h : nat) (a : Automation) :
  (forall h' a', In (h', a') p -> h' < h) ->
  List.find (fun e => Nat.eqb (fst e) h) (p ++ [(h, a)]) = Some (h, a).
Proof.
  induction p as [|[h0 a0] p IH]; intros Hlt; simpl.
  - now rewrite Nat.eqb_refl.
  - assert (Hne : Nat.eqb h0 h = false).
    { apply Nat.eqb_neq. specialize (Hlt h0 a0 (or_introl eq_refl)). lia. }
    rewrite Hne. apply IH. intros h' a' Hin. apply (Hlt h' a'). now right.
Qed.

(** A MATCH for a rule without a pending timer whose trigger has a
    nonzero [for] publishes nothing and registers the fresh timer
    [next_handle] for the rule; when that timer expires, the actions run
    behind the conditions (evaluated at expiry) and the registry and the
    outstanding timers are back to what they were before the match. *)
Theorem delayed_fire_round_trip tn (eng : Engine) (host : Host) (a : Automation)
    (u f to : Update) (s : St) :
  timers_ok s ->
  checkTrigger tn (trigger a) u f to = MATCH -> timeouts s !! id a = None ->
  for_truthy (tr_for (trigger a)) = true ->
  let s1 := runAutomationIfMatches tn eng host a u f to s in
  published s1 = published s /\
  timeouts s1 !! id a = Some (next_handle s) /\
  exec tn eng host s1 (Expire (next_handle s)) =
    publish (snd (runActionsWithConditions tn (mqttBaseTopic eng) host
                    (condition a) (action a)))
      {| subscribed := subscribed s; timeouts := timeouts s; pending := pending s;
         next_handle := S (next_handle s); published := published s |}.
Proof.
  intros [_ [Hp _]] Hm Hn Hf s1. unfold s1, runAutomationIfMatches.
  rewrite Hm, Hn, Hf. unfold startTimeout. cbn [published timeouts].
  split; [reflexivity|]. split; [apply lookup_insert_eq|].
  assert (Hlt : forall h' a', In (h', a') (pending s) -> h' < next_handle s)
    by (intros h' a' Hin; exact (proj1 (Hp h' a' Hin))).
  cbn [exec pending]. rewrite (find_fresh _ _ a Hlt).
  unfold fire. cbn [timeouts pending subscribed next_handle published].
  rewrite (delete_insert_id _ _ _ Hn), (clear_pending_fresh _ _ a Hlt). reflexivity.
Qed.

Lemma timers_ok_init : timers_ok init_st.
Proof.
  split; [constructor | split; [intros h a [] |]].
  intros i h Hi. simpl in Hi. now rewrite lookup_empty in Hi.
Qed.

(** The rule of [raw_D] ([for: 10]) from the initial state: the timer's
    expiry publishes [turn_on Y]. *)
Lemma delayed_fire_round_trip_witness :
  let a := {| id := 0; trigger := trig_X_for10; action := [act_Y_on]; condition := [] |} in
  let s1 := runAutomationIfMatches tn_nan eng_D host_Y_off a
              {[ "state" := VStr ON ]} {[ "state" := VStr OFF ]} {[ "state" := VStr ON ]}
              init_st in
  published s1 = [] /\
  published (exec tn_nan eng_D host_Y_off s1 (Expire 0)) =
    [{| msg_topic := "zigbee2mqtt/Y/set"; msg_payload := PState (Some ON) |}].
Proof.
  cbv zeta.
  pose proof (delayed_fire_round_trip tn_nan eng_D host_Y_off
                {| id := 0; trigger := trig_X_for10; action := [act_Y_on]; condition := [] |}
                {[ "state" := VStr ON ]} {[ "state" := VStr OFF ]} {[ "state" := VStr ON ]}
                init_st timers_ok_init) as T.
  discharge T. cbv zeta in T. destruct T as [T1 [_ T3]].
  split; [exact T1|]. change (next_handle init_st) with 0 in T3. rewrite T3.
  vm_compute. reflexivity.
Defined.

(** Processing one rule never touches the timers of the other rules:
    whatever the trigger result, every other rule id keeps its entry in
    [this.timeouts] and its outstanding timer. *)
Theorem rule_timers_independent tn (eng : Engine) (host : Host) (a : Automation)
    (u f to : Update) (s : St) :
  timers_ok s ->
  let s' := runAutomationIfMatches tn eng host a u f to s in
  (forall j, j <> id a -> timeouts s' !! j = timeouts s !! j) /\
  (forall h b, In (h, b) (pending s) -> id b <> id a -> In (h, b) (pending s')).
Proof.
  intros [Hnd [Hp Ht]] s'. unfold s', runAutomationIfMatches.
  destruct (checkTrigger tn (trigger a) u f to) as [[|]|].
  - destruct (timeouts s !! id a); [split; [reflexivity | tauto]|].
    destruct (for_truthy (tr_for (trigger a))).
    + unfold startTimeout. cbn [timeouts pending]. split.
      * intros j Hj. apply lookup_insert_ne. congruence.
      * intros h b Hin _. apply in_or_app. now left.
    + split; [reflexivity | tauto].
  - unfold stopTimeout. destruct (timeouts s !! id a) as [h0|] eqn:H0;
      [|split; [reflexivity | tauto]].
    cbn [timeouts pending]. split.
    + intros j Hj. apply lookup_delete_ne. congruence.
    + intros h b Hin Hb. apply in_clear_pending. split; [exact Hin|].
      intros ->. destruct (Ht (id a) h0 H0) as [b0 [Hin0 Hid0]].
      assert (b0 = b) by exact (nodup_fst_unique _ _ _ _ Hnd Hin0 Hin).
      subst b0. congruence.
  - split; [reflexivity | tauto].
Qed.

(** Two rules (ids 0 and 1, entities [a] and [b], [for: 5]) both pending;
    a negative edge for [a] leaves the timer of rule 1 in place. *)
Lemma rule_timers_independent_witness :
  let s := run tn_nan eng_AB host_Y_off init_st [Start; ev_on "a"; ev_on "b"] in
  let a := {| id := 0; trigger := trig_AB; action := [act_Y_on]; condition := [] |} in
  timeouts (runAutomationIfMatches tn_nan eng_AB host_Y_off a
              {[ "state" := VStr OFF ]} {[ "state" := VStr ON ]} {[ "state" := VStr OFF ]} s)
    !! 1 = Some 1.
Proof.
  cbv zeta.
  assert (Hok : timers_ok (run tn_nan eng_AB host_Y_off init_st [Start; ev_on "a"; ev_on "b"])).
  { split; [|split].
    - vm_compute. repeat constructor; simpl; intuition discriminate.
    - intros h b Hin. vm_compute in Hin.
      destruct Hin as [E|[E|[]]]; injection E as <- <-; (split; [vm_compute; lia | vm_compute; reflexivity]).
    - intros i h Hi.
      change (timeouts _) with (<[1:=1]> (<[0:=0]> (∅ : gmap nat nat))) in Hi.
      apply lookup_insert_Some in Hi as [[<- <-]|[_ Hi]];
        [| apply lookup_insert_Some in Hi as [[<- <-]|[_ Hi]];
           [| now rewrite lookup_empty in Hi]];
        eexists; (split; [vm_compute; tauto | reflexivity]). }
  destruct (rule_timers_independent tn_nan eng_AB host_Y_off
              {| id := 0; trigger := trig_AB; action := [act_Y_on]; condition := [] |}
              {[ "state" := VStr OFF ]} {[ "state" := VStr ON ]} {[ "state" := VStr OFF ]}
              _ Hok) as [Hj _].
  rewrite (Hj 1 ltac:(discriminate)). vm_compute. reflexivity.
Defined.

(** ** Extra properties: the rule store *)

Lemma validate_conditions_bad (l : list (option ConfigCondition)) :
  Forall (fun c => is_Some c) l ->
  Exists (fun o => exists c, o = Some c /\
            (truthy_str (co_entity c) = false \/ str_includes platforms (co_platform c) = false)) l ->
  validate_conditions l = Some false.
Proof.
  induction l as [|o l IH]; intros Hs Hx; [inversion Hx|].
  inversion Hs as [|? ? [c ->] Hs']; subst. simpl.
  destruct (truthy_str (co_entity c)) eqn:Ee; [|reflexivity].
  destruct (str_includes platforms (co_platform c)) eqn:Ep; [|reflexivity].
  simpl. apply IH; [exact Hs'|].
  inversion Hx as [? ? [c' [Hc' Hb]]|]; subst; [|assumption].
  injection Hc' as ->. destruct Hb; congruence.
Qed.

(** [parseConfig] drops a whole entry, consuming no identifier and
    leaving the other entries to load as they would without it, when its
    trigger platform is unknown, when its trigger entity is falsy, or when
    (its actions and conditions being objects) one of its conditions has a
    falsy entity or an unknown platform; an entry whose trigger entity is
    the empty list [[]] (truthy) likewise contributes nothing. *)
Theorem parse_skips_entry (pre post : list (option RawAutomation)) (e : RawAutomation)
    (t : ConfigTrigger) (n : nat) :
  raw_trigger e = Some t ->
  str_includes platforms (tr_platform t) = false \/
  entity_truthy (tr_entity t) = false \/
  (Forall (fun a => is_Some a) (toArray (raw_action e)) /\
   Forall (fun c => is_Some c) (conditions_of e) /\
   Exists (fun o => exists c, o = Some c /\
             (truthy_str (co_entity c) = false \/
              str_includes platforms (co_platform c) = false)) (conditions_of e)) \/
  (tr_entity t = Some (Many []) /\
   Forall (fun a => is_Some a) (toArray (raw_action e)) /\
   Forall (fun c => is_Some c) (conditions_of e)) ->
  parseConfig (pre ++ Some e :: post) n = parseConfig (pre ++ post) n.
Proof.
  intros Ht H. unfold parseConfig. apply parse_entries_skip. intros r m. simpl. rewrite Ht.
  destruct H as [H|[H|[[Ha [Hc Hx]]|[He [Ha Hc]]]]].
  - now rewrite H.
  - destruct (negb (str_includes platforms (tr_platform t))); [reflexivity|]. now rewrite H.
  - destruct (negb (str_includes platforms (tr_platform t))); [reflexivity|].
    destruct (negb (entity_truthy (tr_entity t))); [reflexivity|].
    destruct (validate_actions (toArray (raw_action e))) as [[|]|] eqn:Va;
      [| reflexivity | exfalso; exact (validate_actions_total _ Ha Va)].
    now rewrite (validate_conditions_bad _ Hc Hx).
  - destruct (negb (str_includes platforms (tr_platform t))); [reflexivity|].
    rewrite He. cbn [entity_truthy negb].
    destruct (validate_actions (toArray (raw_action e))) as [[|]|] eqn:Va;
      [| reflexivity | exfalso; exact (validate_actions_total _ Ha Va)].
    destruct (validate_conditions (conditions_of e)) as [[|]|] eqn:Vc;
      [| reflexivity | exfalso; exact (validate_conditions_total _ Hc Vc)].
    unfold entities_of. rewrite He. reflexivity.
Qed.

(** The entry with platform [zone] next to [raw_D] is dropped. *)
Lemma parse_skips_entry_witness :
  parseConfig [Some raw_zone; Some raw_D] 0 = parseConfig [Some raw_D] 0.
Proof.
  apply (parse_skips_entry [] [Some raw_D] raw_zone trig_zone 0); [reflexivity|].
  left. reflexivity.
Defined.

Lemma validate_actions_ok (l : list (option ConfigAction)) :
  validate_actions l = Some true ->
  Forall (fun ac => str_includes services (ac_service ac) = true) (somes l).
Proof.
  induction l as [|[a|] l IH]; simpl; intros H; [constructor | | discriminate].
  destruct (str_includes services (ac_service a)) eqn:E; [|discriminate].
  constructor; [exact E | now apply IH].
Qed.

Lemma validate_conditions_ok (l : list (option ConfigCondition)) :
  validate_conditions l = Some true ->
  Forall (fun c => truthy_str (co_entity c) = true /\
                   str_includes platforms (co_platform c) = true) (somes l).
Proof.
  induction l as [|[c|] l IH]; simpl; intros H; [constructor | | discriminate].
  destruct (truthy_str (co_entity c)) eqn:E1; [|discriminate].
  destruct (str_includes platforms (co_platform c)) eqn:E2; [|discriminate].
  constructor; [split; [exact E1 | exact E2] | now apply IH].
Qed.

Lemma SSorted_snoc (l : list nat) (m : nat) :
  StronglySorted lt l -> Forall (fun y => y < m) l -> StronglySorted lt (l ++ [m]).
Proof.
  induction l as [|y l IH]; intros Hs Hf; simpl.
  - constructor; constructor.
  - inversion Hs as [|? ? Hs' Hy]; subst. inversion Hf as [|? ? Hym Hf']; subst.
    constructor; [now apply IH|]. apply Forall_app. split; [exact Hy|].
    constructor; [exact Hym | constructor].
Qed.

Lemma store_ok_mono (n0 n n' : nat) (r : Automations) :
  n <= n' -> store_ok n0 n r -> store_ok n0 n' r.
Proof.
  intros Hle [H1 H2]. split; [|exact H2].
  intros k l Hk. destruct (H1 k l Hk) as [Hne [Hs Hf]]. split; [exact Hne|]. split; [exact Hs|].
  eapply Forall_impl; [exact Hf|]. simpl. intros a [Ha Hb]. split; [exact Ha | lia].
Qed.

Lemma push_rule_eq (r r' : Automations) (x : string) (a : Automation) :
  push_rule r x a = Some r' -> r' = <[x := (default [] (r !! x) ++ [a])%list]> r.
Proof.
  unfold push_rule. destruct (r !! x) as [l|]; simpl.
  - intros H. now injection H as <-.
  - destruct (is_prototype_key x); [discriminate|]. intros H. now injection H as <-.
Qed.

Lemma in_pushed (r : Automations) (x k : string) (a b : Automation) (l' : list Automation) :
  <[x := (default [] (r !! x) ++ [a])%list]> r !! k = Some l' -> In b l' ->
  (b = a /\ k = x) \/ (exists l, r !! k = Some l /\ In b l).
Proof.
  destruct (decide (k = x)) as [->|Hne].
  - rewrite lookup_insert_eq. intros H. injection H as <-. intros Hin.
    apply in_app_or in Hin as [Hin|[<-|[]]]; [|now left].
    right. destruct (r !! x) as [l|]; [exists l; now split | destruct Hin].
  - rewrite lookup_insert_ne by congruence. intros H Hin. right. exists l'. now split.
Qed.

Lemma push_rule_ok (n0 m : nat) (r r' : Automations) (x : string) (a : Automation) :
  store_ok n0 m r -> n0 <= m -> rule_ok x a -> id a = m ->
  push_rule r x a = Some r' -> store_ok n0 (S m) r'.
Proof.
  intros [H1 H2] Hn0 Hra Hid Hp. apply push_rule_eq in Hp. subst r'.
  assert (Hold : forall k l b, r !! k = Some l -> In b l -> id b < m).
  { intros k l b Hk Hb. destruct (H1 k l Hk) as [_ [_ Hf]].
    rewrite List.Forall_forall in Hf. exact (proj2 (proj2 (Hf b Hb))). }
  split.
  - intros k l' Hk. destruct (decide (k = x)) as [->|Hne].
    + rewrite lookup_insert_eq in Hk. injection Hk as <-.
      split; [destruct (default [] (r !! x)); discriminate|].
      assert (Hl0 : StronglySorted lt (map id (default [] (r !! x))) /\
                    Forall (fun b => rule_ok x b /\ n0 <= id b < m) (default [] (r !! x))).
      { destruct (r !! x) as [l|] eqn:Hx; simpl; [|split; constructor].
        destruct (H1 x l Hx) as [_ [Hs Hf]]. now split. }
      destruct Hl0 as [Hs Hf]. split.
      * rewrite map_app. simpl. rewrite Hid. apply SSorted_snoc; [exact Hs|].
        apply List.Forall_map. eapply Forall_impl; [exact Hf|]. simpl. intros b [_ Hb]. lia.
      * apply Forall_app. split.
        -- eapply Forall_impl; [exact Hf|]. simpl. intros b [Hb1 Hb2]. split; [exact Hb1 | lia].
        -- constructor; [split; [exact Hra | lia] | constructor].
    + rewrite lookup_insert_ne in Hk by congruence.
      destruct (H1 k l' Hk) as [Hne' [Hs Hf]]. split; [exact Hne'|]. split; [exact Hs|].
      eapply Forall_impl; [exact Hf|]. simpl. intros b [Hb1 Hb2]. split; [exact Hb1 | lia].
  - intros k1 k2 l1 l2 a1 a2 Hk1 Hk2 Hin1 Hin2 Heq.
    destruct (in_pushed r x k1 a a1 l1 Hk1 Hin1) as [[-> ->]|[l1' [Hk1' Hin1']]];
    destruct (in_pushed r x k2 a a2 l2 Hk2 Hin2) as [[-> ->]|[l2' [Hk2' Hin2']]].
    + reflexivity.
    + pose proof (Hold k2 l2' a2 Hk2' Hin2'). lia.
    + pose proof (Hold k1 l1' a1 Hk1' Hin1'). lia.
    + exact (H2 k1 k2 l1' l2' a1 a2 Hk1' Hk2' Hin1' Hin2' Heq).
Qed.

Lemma push_replicas_ok (n0 : nat) (es : list string) (mk : nat -> Automation)
    (r r' : Automations) (m m' : nat) :
  (forall x k, In x es -> rule_ok x (mk k) /\ id (mk k) = k) ->
  store_ok n0 m r -> n0 <= m ->
  push_replicas es mk r m = Some (r', m') -> m <= m' /\ store_ok n0 m' r'.
Proof.
  revert r m. induction es as [|x es IH]; intros r m Hmk Hok Hn0; simpl.
  - intros H. injection H as <- <-. split; [lia | exact Hok].
  - destruct (push_rule r x (mk m)) as [r1|] eqn:Hp; [|discriminate].
    intros H. destruct (Hmk x m (or_introl eq_refl)) as [Hra Hid].
    assert (Hok1 : store_ok n0 (S m) r1) by exact (push_rule_ok n0 m r r1 x (mk m) Hok Hn0 Hra Hid Hp).
    destruct (IH r1 (S m) (fun y k Hy => Hmk y k (or_intror Hy)) Hok1 ltac:(lia) H) as [Hle Hok'].
    split; [lia | exact Hok'].
Qed.

Lemma parse_entry_ok (n0 m m' : nat) (r r' : Automations) (o : option RawAutomation) :
  store_ok n0 m r -> n0 <= m ->
  parse_entry r m o = Some (r', m') -> m <= m' /\ store_ok n0 m' r'.
Proof.
  intros Hok Hn0. destruct o as [e|]; [|discriminate]. simpl.
  destruct (raw_trigger e) as [t|]; [|discriminate].
  destruct (str_includes platforms (tr_platform t)) eqn:Hpl; simpl;
    [| intros H; injection H as <- <-; split; [lia | exact Hok]].
  destruct (negb (entity_truthy (tr_entity t)));
    [intros H; injection H as <- <-; split; [lia | exact Hok]|].
  destruct (validate_actions (toArray (raw_action e))) as [[|]|] eqn:Va;
    [| intros H; injection H as <- <-; split; [lia | exact Hok] | discriminate].
  destruct (validate_conditions (conditions_of e)) as [[|]|] eqn:Vc;
    [| intros H; injection H as <- <-; split; [lia | exact Hok] | discriminate].
  apply push_replicas_ok; [|exact Hok | exact Hn0].
  intros x k Hx. split; [|reflexivity].
  split; [exact Hpl|]. split; [exact Hx|]. split.
  - cbn [action]. now apply validate_actions_ok.
  - cbn [condition]. now apply validate_conditions_ok.
Qed.

Lemma ssorted_lookup_inj (l : list Automation) :
  StronglySorted lt (map id l) ->
  forall i j a b, l !! i = Some a -> l !! j = Some b -> id a = id b -> i = j.
Proof.
  induction l as [|x l IH]; intros Hs i j a b Hi Hj Hab; [discriminate|].
  apply StronglySorted_inv in Hs as [Hs Hall].
  assert (Hlt : forall y, In y l -> id x < id y).
  { intros y Hy. rewrite List.Forall_forall in Hall. apply Hall, in_map, Hy. }
  destruct i as [|i], j as [|j]; cbn [lookup list_lookup] in Hi, Hj.
  - reflexivity.
  - injection Hi as <-. apply list_elem_of_lookup_2, list_elem_of_In, Hlt in Hj. lia.
  - injection Hj as <-. apply list_elem_of_lookup_2, list_elem_of_In, Hlt in Hi. lia.
  - f_equal. exact (IH Hs i j a b Hi Hj Hab).
Qed.

Lemma store_ok_valid (n0 n : nat) (r : Automations) : store_ok n0 n r -> store_valid r.
Proof.
  intros [H1 H2]. split.
  - intros k l Hk. destruct (H1 k l Hk) as [Hne [_ Hall]]. split; [exact Hne|].
    eapply Forall_impl; [exact Hall|]. intros a [Ha _]. exact Ha.
  - intros k1 k2 l1 l2 i1 i2 a1 a2 Hk1 Hk2 Hi1 Hi2 Heq.
    assert (Hin1 : In a1 l1) by (apply list_elem_of_In; eapply list_elem_of_lookup_2; exact Hi1).
    assert (Hin2 : In a2 l2) by (apply list_elem_of_In; eapply list_elem_of_lookup_2; exact Hi2).
    pose proof (H2 k1 k2 l1 l2 a1 a2 Hk1 Hk2 Hin1 Hin2 Heq) as <-.
    rewrite Hk1 in Hk2. injection Hk2 as <-.
    split; [reflexivity|].
    destruct (H1 k1 l1 Hk1) as [_ [Hs _]].
    exact (ssorted_lookup_inj l1 Hs i1 i2 a1 a2 Hi1 Hi2 Heq).
Qed.

(** Every rule [parseConfig] stores passed its validation (known trigger
    platform, stored under one of its trigger's entities, known services,
    conditions with an entity and a known platform), no bucket is empty,
    and no two stored rules share an identifier: each replica draws its
    own fresh value ([crypto.randomUUID()], modelled as a supply of
    distinct values). *)
Theorem parse_store_ok (values : list (option RawAutomation)) (n n' : nat) (r : Automations) :
  parseConfig values n = Some (r, n') -> store_valid r.
Proof.
  unfold parseConfig.
  assert (Gen : forall vs r0 m, store_ok n m r0 -> n <= m ->
            parse_entries vs r0 m = Some (r, n') -> m <= n' /\ store_ok n n' r).
  { induction vs as [|o vs IH]; intros r0 m Hok Hn; simpl.
    - intros H. injection H as <- <-. split; [lia | exact Hok].
    - destruct (parse_entry r0 m o) as [[r1 m1]|] eqn:E; [|discriminate].
      intros H. destruct (parse_entry_ok n m m1 r0 r1 o Hok Hn E) as [Hle Hok1].
      destruct (IH r1 m1 Hok1 ltac:(lia) H) as [Hle' Hok']. split; [lia | exact Hok']. }
  intros H. apply (store_ok_valid n n'). apply (Gen values ∅ n); [| lia | exact H].
  split.
  - intros k l Hk. now rewrite lookup_empty in Hk.
  - intros k1 k2 l1 l2 a1 a2 Hk1. now rewrite lookup_empty in Hk1.
Qed.

(** [raw_AB] then [raw_D]: three rules under [a], [b] and [X], with
    distinct identifiers. *)
Lemma parse_store_ok_witness :
  store_valid (store_of (parseConfig [Some raw_AB; Some raw_D] 0)).
Proof.
  assert (E : parseConfig [Some raw_AB; Some raw_D] 0 =
              Some (store_of (parseConfig [Some raw_AB; Some raw_D] 0), 3))
    by (vm_compute; reflexivity).
  exact (parse_store_ok _ _ _ _ E).
Defined.

(** ** Extra properties: the TypeScript variant against the compiled one *)

Lemma no_custom_service_is (a : ConfigAction) :
  ac_service a <> Some CUSTOM -> service_is a CUSTOM = false.
Proof.
  unfold service_is. destruct (ac_service a) as [x|]; [|reflexivity].
  intros H. apply String.eqb_neq. congruence.
Qed.

Lemma ts_runActions_eq (mqttBaseTopic : string) (host : Host) (actions : list ConfigAction) :
  Forall (fun a => ac_service a <> Some CUSTOM) actions ->
  TsVariant.runActions mqttBaseTopic host actions = runActions mqttBaseTopic host actions.
Proof.
  induction actions as [|a l IH]; intros H; [reflexivity|].
  inversion H as [|? ? Ha Hl]; subst. cbn [TsVariant.runActions runActions].
  destruct (resolveEntity host (ac_entity a)); [|now apply IH].
  rewrite (no_custom_service_is a Ha), (IH Hl). reflexivity.
Qed.

(** On actions without the [custom] service (the only services the
    TypeScript variant accepts), its [runActions] publishes exactly what
    the compiled variant's [runActions] publishes. *)
Theorem ts_runActions_agrees (mqttBaseTopic : string) (host : Host) (actions : list ConfigAction) :
  Forall (fun a => ac_service a <> Some CUSTOM) actions ->
  TsVariant.runActions mqttBaseTopic host actions = runActions mqttBaseTopic host actions.
Proof. apply ts_runActions_eq. Qed.

Lemma ts_runActions_agrees_witness :
  TsVariant.runActions "zigbee2mqtt" host_Y_on [act_Y_on; act_Y_toggle; act_W_on] =
    runActions "zigbee2mqtt" host_Y_on [act_Y_on; act_Y_toggle; act_W_on].
Proof.
  apply ts_runActions_agrees.
  repeat constructor; cbn; discriminate.
Defined.

Lemma ts_match_eq tn (mqttBaseTopic : string) (host : Host) (a : TsVariant.Automation)
    (u f to : Update) :
  In (tr_platform (TsVariant.trigger a)) [Some ACTION; Some STATE; Some NUMERIC_STATE] ->
  (tr_platform (TsVariant.trigger a) = Some STATE ->
     attr_or (tr_attribute (TsVariant.trigger a)) STATE = STATE) ->
  TsVariant.runAutomationIfMatches tn mqttBaseTopic host a u f to =
    match checkTrigger tn (TsVariant.trigger a) u f to with
    | Some true => TsVariant.runActions mqttBaseTopic host (TsVariant.action a)
    | _ => []
    end.
Proof.
  set (t := TsVariant.trigger a). intros Hin Hattr.
  destruct Hin as [Hp|[Hp|[Hp|[]]]]; symmetry in Hp.
  - rewrite (checkTrigger_action tn t u f to Hp).
    unfold TsVariant.runAutomationIfMatches. fold t. rewrite Hp. cbn -[includes].
    destruct (u !! "action"); [|reflexivity].
    destruct (includes (toArray_field (tr_action t)) v); reflexivity.
  - rewrite (checkTrigger_state_like tn t STATE u f to ltac:(now left) Hp), (Hattr Hp).
    unfold TsVariant.runAutomationIfMatches. fold t. rewrite Hp. cbn -[includes].
    unfold check_state_like. unfold STATE.
    destruct (u !! "state"), (f !! "state"), (to !! "state"); try reflexivity.
    destruct (js_strict_eq v0 v1); [reflexivity|]. cbn [accepted_field].
    destruct (includes (toArray_field (tr_state t)) v); reflexivity.
  - rewrite (checkTrigger_numeric tn t u f to Hp).
    unfold TsVariant.runAutomationIfMatches. fold t. rewrite Hp. cbn -[js_ge js_lt js_le js_gt].
    unfold check_numeric.
    destruct (u !! attr_key (tr_attribute t)), (f !! attr_key (tr_attribute t)),
      (to !! attr_key (tr_attribute t)); try reflexivity.
    destruct (js_strict_eq v0 v1); [reflexivity|].
    destruct (tr_above t) as [x|], (tr_below t) as [y|];
      repeat match goal with
      | |- context [js_ge tn ?v ?q] => destruct (js_ge tn v q)
      | |- context [js_lt tn ?v ?q] => destruct (js_lt tn v q)
      | |- context [js_le tn ?v ?q] => destruct (js_le tn v q)
      | |- context [js_gt tn ?v ?q] => destruct (js_gt tn v q)
      end; reflexivity.
Qed.

(** For the platforms the TypeScript variant knows ([action], [state]
    with the default attribute, [numeric_state]), its inline matcher runs
    the actions exactly when the compiled variant's [checkTrigger] returns
    MATCH, and publishes nothing otherwise. *)
Theorem ts_matches_iff_checkTrigger tn (mqttBaseTopic : string) (host : Host)
    (a : TsVariant.Automation) (u f to : Update) :
  In (tr_platform (TsVariant.trigger a)) [Some ACTION; Some STATE; Some NUMERIC_STATE] ->
  (tr_platform (TsVariant.trigger a) = Some STATE ->
     attr_or (tr_attribute (TsVariant.trigger a)) STATE = STATE) ->
  TsVariant.runAutomationIfMatches tn mqttBaseTopic host a u f to =
    match checkTrigger tn (TsVariant.trigger a) u f to with
    | Some true => TsVariant.runActions mqttBaseTopic host (TsVariant.action a)
    | _ => []
    end.
Proof. apply ts_match_eq. Qed.

(** The rule [above: 30] on [T] toggling [Y]: 25 to 35 publishes, 35 to 25 does not. *)
Lemma ts_matches_iff_checkTrigger_witness :
  let a := {| TsVariant.trigger := trig_T_above30; TsVariant.action := [act_Y_toggle] |} in
  TsVariant.runAutomationIfMatches tn_nan "zigbee2mqtt" host_Y_off a
    (temp (VNum 35)) (temp (VNum 25)) (temp (VNum 35)) =
    [{| msg_topic := "zigbee2mqtt/Y/set"; msg_payload := PState (Some ON) |}] /\
  TsVariant.runAutomationIfMatches tn_nan "zigbee2mqtt" host_Y_off a
    (temp (VNum 25)) (temp (VNum 35)) (temp (VNum 25)) = [].
Proof.
  cbv zeta. split.
  - rewrite ts_matches_iff_checkTrigger;
      [vm_compute; reflexivity | right; right; now left | discriminate].
  - rewrite ts_matches_iff_checkTrigger;
      [vm_compute; reflexivity | right; right; now left | discriminate].
Defined.

Lemma publish_nil (s : St) : publish [] s = s.
Proof. destruct s. unfold publish. cbn. now rewrite app_nil_r. Qed.

(** A rule of the compiled variant without conditions, without a delay
    ([for] absent or 0), without [custom] actions and on a platform the
    TypeScript variant knows ([state] with its default attribute) behaves
    as that rule does in the TypeScript variant, as long as no timer is
    pending for it: the state changes only by publishing what the
    TypeScript [runAutomationIfMatches] publishes. *)
Theorem compiled_rule_as_ts tn (eng : Engine) (host : Host) (a : Automation)
    (u f to : Update) (s : St) :
  In (tr_platform (trigger a)) [Some ACTION; Some STATE; Some NUMERIC_STATE] ->
  (tr_platform (trigger a) = Some STATE -> attr_or (tr_attribute (trigger a)) STATE = STATE) ->
  Forall (fun ac => ac_service ac <> Some CUSTOM) (action a) ->
  condition a = [] ->
  tr_for (trigger a) = None \/ tr_for (trigger a) = Some 0%Q ->
  timeouts s !! id a = None ->
  runAutomationIfMatches tn eng host a u f to s =
    publish (TsVariant.runAutomationIfMatches tn (mqttBaseTopic eng) host (strip a) u f to) s.
Proof.
  intros Hin Hattr Hnc Hc Hf Hn.
  rewrite (ts_match_eq tn (mqttBaseTopic eng) host (strip a) u f to Hin Hattr).
  cbn [strip TsVariant.trigger TsVariant.action].
  unfold runAutomationIfMatches.
  destruct (checkTrigger tn (trigger a) u f to) as [[|]|].
  - rewrite Hn. assert (Hft : for_truthy (tr_for (trigger a)) = false)
      by (destruct Hf as [-> | ->]; reflexivity).
    rewrite Hft, Hc. cbn. now rewrite (ts_runActions_eq _ _ _ Hnc).
  - unfold stopTimeout. rewrite Hn. symmetry. apply publish_nil.
  - symmetry. apply publish_nil.
Qed.

(** [turn_on Y] after [X] switches on, [for: 0]: both variants publish
    [{state: ON}] to [Y]. *)
Lemma compiled_rule_as_ts_witness :
  let a := {| id := 0; trigger := {| tr_platform := Some STATE; tr_entity := Some (One "X");
                                     tr_action := None; tr_state := Some (One (VStr ON));
                                     tr_state_l1 := None; tr_state_l2 := None;
                                     tr_attribute := None; tr_above := None;
                                     tr_below := None; tr_for := Some 0%Q |};
              action := [act_Y_on]; condition := [] |} in
  runAutomationIfMatches tn_nan eng_D host_Y_off a
    {[ "state" := VStr ON ]} {[ "state" := VStr OFF ]} {[ "state" := VStr ON ]} init_st =
  publish (TsVariant.runAutomationIfMatches tn_nan "zigbee2mqtt" host_Y_off (strip a)
             {[ "state" := VStr ON ]} {[ "state" := VStr OFF ]} {[ "state" := VStr ON ]}) init_st.
Proof.
  cbv zeta. apply compiled_rule_as_ts.
  - right. now left.
  - intros _. reflexivity.
  - repeat constructor. cbn. discriminate.
  - reflexivity.
  - right. reflexivity.
  - reflexivity.
Defined.

Lemma str_includes_ts (p : option string) :
  p <> Some STATE_L1 -> p <> Some STATE_L2 ->
  str_includes platforms p = str_includes TsVariant.platforms p.
Proof.
  intros H1 H2. destruct p as [x|]; [|reflexivity]. cbn [str_includes existsb].
  unfold platforms, TsVariant.platforms. cbn [existsb].
  assert (E1 : String.eqb x STATE_L1 = false) by (apply String.eqb_neq; congruence).
  assert (E2 : String.eqb x STATE_L2 = false) by (apply String.eqb_neq; congruence).
  rewrite E1, E2. destruct (String.eqb x ACTION), (String.eqb x STATE); reflexivity.
Qed.

Lemma validate_actions_ts (l : list (option ConfigAction)) :
  Forall (fun o => match o with Some a => ac_service a <> Some CUSTOM | None => True end) l ->
  validate_actions l = TsVariant.validate_actions l.
Proof.
  induction l as [|[a|] l IH]; intros H; [reflexivity | | reflexivity].
  inversion H as [|? ? Ha Hl]; subst. cbn [validate_actions TsVariant.validate_actions].
  assert (E : str_includes services (ac_service a) = str_includes TsVariant.services (ac_service a)).
  { destruct (ac_service a) as [x|]; [|reflexivity]. cbn [str_includes].
    unfold services, TsVariant.services. cbn [existsb].
    assert (Ec : String.eqb x CUSTOM = false) by (apply String.eqb_neq; congruence).
    rewrite Ec. destruct (String.eqb x TOGGLE), (String.eqb x TURN_ON), (String.eqb x TURN_OFF);
      reflexivity. }
  rewrite E. destruct (str_includes TsVariant.services (ac_service a)); [now apply IH | reflexivity].
Qed.

Lemma ts_push_rule (r : Automations) (x : string) (a : Automation) :
  TsVariant.push_rule (strip_store r) x (strip a) = option_map strip_store (push_rule r x a).
Proof.
  unfold TsVariant.push_rule, push_rule. unfold strip_store at 1. rewrite lookup_fmap.
  destruct (r !! x) as [l|]; cbn [option_map].
  - unfold strip_store. now rewrite fmap_insert, map_app.
  - destruct (is_prototype_key x); [reflexivity|]. cbn [option_map].
    unfold strip_store. now rewrite fmap_insert.
Qed.

Lemma ts_push_all (es : list string) (mk : nat -> Automation) (sa : TsVariant.Automation)
    (r : Automations) (m : nat) :
  (forall k, strip (mk k) = sa) ->
  TsVariant.push_all es sa (strip_store r) =
    option_map (fun p => strip_store (fst p)) (push_replicas es mk r m).
Proof.
  intros Hmk. revert r m. induction es as [|x es IH]; intros r m; [reflexivity|].
  cbn [TsVariant.push_all push_replicas].
  pose proof (ts_push_rule r x (mk m)) as P. rewrite Hmk in P. rewrite P.
  destruct (push_rule r x (mk m)); [apply IH | reflexivity].
Qed.

Lemma ts_parse_entry (r : Automations) (m : nat) (o : option RawAutomation) :
  ts_compatible o ->
  TsVariant.parse_entry (strip_store r) o =
    option_map (fun p => strip_store (fst p)) (parse_entry r m o).
Proof.
  destruct o as [e|]; [|reflexivity]. simpl.
  intros [Hc Ht]. destruct (raw_trigger e) as [t|]; [|reflexivity].
  destruct Ht as [H1 [H2 Ha]]. rewrite <- (str_includes_ts _ H1 H2).
  destruct (negb (str_includes platforms (tr_platform t))); [reflexivity|].
  destruct (negb (entity_truthy (tr_entity t))); [reflexivity|].
  rewrite <- (validate_actions_ts _ Ha).
  destruct (validate_actions (toArray (raw_action e))) as [[|]|]; [| reflexivity | reflexivity].
  rewrite Hc. cbn [validate_conditions].
  apply ts_push_all. intros k. reflexivity.
Qed.

(** On configurations both variants read the same way (no conditions, no
    [state_l1]/[state_l2] trigger, no [custom] action), the TypeScript
    [parseConfig] builds the compiled variant's rule store with the
    identifiers and conditions left out, and throws exactly when the
    compiled one throws. *)
Theorem ts_parseConfig_agrees (values : list (option RawAutomation)) (n : nat) :
  Forall ts_compatible values ->
  TsVariant.parseConfig values = option_map (fun p => strip_store (fst p)) (parseConfig values n).
Proof.
  unfold TsVariant.parseConfig, parseConfig.
  assert (E : (∅ : gmap string (list TsVariant.Automation)) = strip_store ∅)
    by (unfold strip_store; now rewrite fmap_empty).
  rewrite E.
  generalize (∅ : Automations) as r. revert n.
  induction values as [|o vs IH]; intros n r H; [reflexivity|].
  inversion H as [|? ? Ho Hvs]; subst. cbn [TsVariant.parse_entries parse_entries].
  rewrite (ts_parse_entry r n o Ho).
  destruct (parse_entry r n o) as [[r1 n1]|]; [apply IH; exact Hvs | reflexivity].
Qed.

Lemma ts_parseConfig_agrees_witness :
  TsVariant.parseConfig [Some raw_D; Some raw_AB_now] =
    option_map (fun p => strip_store (fst p)) (parseConfig [Some raw_D; Some raw_AB_now] 0).
Proof.
  apply ts_parseConfig_agrees.
  repeat constructor; cbn; discriminate.
Defined.
